(** * FoamWorkspace: the resource index and link graph of foam-core

    Shallow embedding of [packages/foam-core/src/model/workspace.ts].

    - JavaScript objects used as maps are insertion-ordered association
      lists of their own properties ([JsObject]): [Object.values]
      enumerates them in insertion order and [resolveLinks] folds over
      that order.  A property read [o[k]] and the test [k in o] also see
      the members that every plain object inherits from
      [Object.prototype] ([JsObject.read], [JsObject.in_]).  The special
      enumeration order of integer-like keys and an assignment under the
      key [__proto__] (which would replace the prototype) are outside
      the model.
    - The workspace is one mutable object; it is threaded explicitly in
      the monad [M] of state and exceptions.  The state reached when an
      exception is raised is not kept.
    - [null] and [undefined] results are both [None]. *)

From Stdlib Require Import String Ascii List ZArith Bool Arith Lia Permutation.
Import ListNotations.
Open Scope string_scope.
Open Scope list_scope.

(** ** JavaScript objects used as string-keyed maps *)

Module JsObject.

Definition t (V : Type) : Type := list (string * V).

(** A member of [Object.prototype]: a function with its [length], or,
    under [__proto__], the prototype object itself. *)
Inductive Member :=
| MemberFunction (length : nat)
| MemberObject.

Definition prototype_members : list (string * Member) :=
  [ ("constructor", MemberFunction 1);
    ("__defineGetter__", MemberFunction 2);
    ("__defineSetter__", MemberFunction 2);
    ("hasOwnProperty", MemberFunction 1);
    ("__lookupGetter__", MemberFunction 1);
    ("__lookupSetter__", MemberFunction 1);
    ("isPrototypeOf", MemberFunction 1);
    ("propertyIsEnumerable", MemberFunction 1);
    ("toString", MemberFunction 0);
    ("valueOf", MemberFunction 0);
    ("__proto__", MemberObject);
    ("toLocaleString", MemberFunction 0) ].

(** What a property read yields: an own value, an inherited member, or
    [undefined]. *)
Inductive Value (V : Type) :=
| Own (v : V)
| Inherited (m : Member)
| Undefined.
Arguments Own {V} v.
Arguments Inherited {V} m.
Arguments Undefined {V}.

Section Ops.
Context {V : Type}.

Definition empty : t V := [].

(** The own property [k] of [o], if any. *)
Fixpoint get (k : string) (o : t V) : option V :=
  match o with
  | [] => None
  | (k', v) :: o' => if String.eqb k k' then Some v else get k o'
  end.

(** [o[k] = v]: an existing key keeps its position, a new key is
    appended. *)
Fixpoint put (k : string) (v : V) (o : t V) : t V :=
  match o with
  | [] => [(k, v)]
  | (k', v') :: o' =>
      if String.eqb k k' then (k, v) :: o' else (k', v') :: put k v o'
  end.

(** [delete o[k]] *)
Fixpoint del (k : string) (o : t V) : t V :=
  match o with
  | [] => []
  | (k', v') :: o' =>
      if String.eqb k k' then del k o' else (k', v') :: del k o'
  end.

(** [k] is an own property of [o]. *)
Definition has (k : string) (o : t V) : bool :=
  match get k o with Some _ => true | None => false end.

(** [Object.values(o)] *)
Definition values (o : t V) : list V := map snd o.

Definition keys (o : t V) : list string := map fst o.
End Ops.

(** [Object.prototype[k]] *)
Definition prototype (k : string) : option Member := get k prototype_members.

(** [o[k]]: the own property, else what the prototype holds. *)
Definition read {V : Type} (k : string) (o : t V) : Value V :=
  match get k o with
  | Some v => Own v
  | None =>
      match prototype k with
      | Some m => Inherited m
      | None => Undefined
      end
  end.

(** [k in o] *)
Definition in_ {V : Type} (k : string) (o : t V) : bool :=
  has k o || match prototype k with Some _ => true | None => false end.

End JsObject.

(** ** Data model ([common/uri], [model/note]) *)

Record URI := mkURI {
  scheme : string;
  authority : string;
  path : string;
  query : string;
  fragment : string
}.

Record Point := mkPoint { line : Z; column : Z }.

Record Position := mkPosition { pos_start : Point; pos_end : Point }.

(** [NoteLink = WikiLink | DirectLink]; only the fields this file reads
    are kept. *)
Inductive NoteLink :=
| WikiLink (slug : string) (position : Position)
| DirectLink (label target : string) (position : Position).

Inductive LinkType := wikilink | link_.

Definition link_type (l : NoteLink) : LinkType :=
  match l with WikiLink _ _ => wikilink | DirectLink _ _ _ => link_ end.

Definition link_position (l : NoteLink) : Position :=
  match l with WikiLink _ p => p | DirectLink _ _ p => p end.

Record NoteLinkDefinition := mkDefinition { label : string; url : string }.

Record Note := mkNote {
  note_uri : URI;
  note_links : list NoteLink;
  note_definitions : list NoteLinkDefinition
}.

(** [Resource = Note | Placeholder], discriminated by [type]. *)
Inductive Resource :=
| RNote (n : Note)
| RPlaceholder (u : URI).

Definition resource_uri (r : Resource) : URI :=
  match r with RNote n => note_uri n | RPlaceholder u => u end.

Record Connection := mkConnection {
  source : URI;
  target : URI;
  link : NoteLink
}.

(** A reference handed to [find]: [URI | string]. *)
Inductive Reference :=
| RefUri (u : URI)
| RefStr (s : string).

Inductive ReferenceType := ref_uri | ref_absolute_path | ref_relative_path | ref_key.

(** What [find] can hand back: a resource, or a member of
    [Object.prototype] that a lookup by an inherited key yields in its
    place. *)
Inductive Found :=
| FoundResource (r : Resource)
| FoundMember (m : JsObject.Member).

(** Events fired by the three emitters. *)
Inductive Event :=
| Added (r : Resource)
| Updated (old new : Resource)
| Deleted (r : Resource).

(** Errors that the code can raise. *)
Inductive Error :=
| TypeError
| ResourceNotFound (p : string)
| UnexpectedState
| UnexpectedReferenceType.

Inductive Result (A : Type) :=
| Ok (a : A)
| Raise (e : Error).
Arguments Ok {A} a.
Arguments Raise {A} e.

(** What a public method hands back: the workspace object itself, a
    resource, or [null]. *)
Inductive Returned :=
| ReturnedWorkspace
| ReturnedResource (r : Resource)
| ReturnedNull.

Record Patch (A : Type) := mkPatch { removed : list A; added : list A }.
Arguments mkPatch {A} removed added.
Arguments removed {A} p.
Arguments added {A} p.

(** ** Decidable equalities *)

Definition Point_eqb (a b : Point) : bool :=
  Z.eqb (line a) (line b) && Z.eqb (column a) (column b).

Definition Position_eqb (a b : Position) : bool :=
  Point_eqb (pos_start a) (pos_start b) && Point_eqb (pos_end a) (pos_end b).

(** lodash [isEqual] on the modelled fields of a [NoteLink]. *)
Definition isEqual (a b : NoteLink) : bool :=
  match a, b with
  | WikiLink s p, WikiLink s' p' => String.eqb s s' && Position_eqb p p'
  | DirectLink l t p, DirectLink l' t' p' =>
      String.eqb l l' && String.eqb t t' && Position_eqb p p'
  | _, _ => false
  end.

Definition LinkType_eqb (a b : LinkType) : bool :=
  match a, b with
  | wikilink, wikilink => true
  | link_, link_ => true
  | _, _ => false
  end.

(** ** Utilities of [utils] used by the workspace

    Modelled from the spec: [placeholderUri], [isPlaceholder],
    [isSameUri], [isSome] and [isNone] live in [utils], which is not
    part of the sources at hand.  A reserved scheme denotes a placeholder
    identifier, and identifier equality is structural. *)

Definition placeholderUri (key : string) : URI :=
  mkURI "placeholder" "" key "" "".

Definition isPlaceholder (uri : URI) : bool :=
  String.eqb (scheme uri) "placeholder".

Definition isSameUri (a b : URI) : bool :=
  String.eqb (authority a) (authority b)
  && String.eqb (scheme a) (scheme b)
  && String.eqb (path a) (path b)
  && String.eqb (fragment a) (fragment b)
  && String.eqb (query a) (query b).

Definition isSome {A : Type} (o : option A) : bool :=
  match o with Some _ => true | None => false end.

Definition isNone {A : Type} (o : option A) : bool := negb (isSome o).

(** ** External collaborators

    Node's [path.parse], [URI.file], the path-resolution helpers of
    [utils], [String.prototype.localeCompare] and the list diff of
    [fast-array-diff] are taken as an interface; the workspace is
    verified against any implementation of it. *)

Class Externals := {
  (** [path.parse(p).ext]: empty, or the end of [p] from a dot on *)
  path_parse_ext : string -> string;
  (** [path.parse(p).name] *)
  path_parse_name : string -> string;
  (** [URI.file(p)] *)
  URI_file : string -> URI;
  (** identifier of a slug relative to an origin *)
  computeRelativeURI : URI -> string -> URI;
  (** identifier of a literal reference string given an origin *)
  parseUri : URI -> string -> URI;
  (** [a.localeCompare(b)] *)
  localeCompare : string -> string -> Z;
  (** [diff(old, new, compare)] *)
  diff : forall A : Type, list A -> list A -> (A -> A -> bool) -> Patch A
}.

(** ** The workspace state *)

Record FoamWorkspace := mkWorkspace {
  (** Resources by key / slug *)
  resourcesByName : JsObject.t (list string);
  (** Resources by URI *)
  resources : JsObject.t Resource;
  (** Placeholders by key / slug / value *)
  placeholders : JsObject.t Resource;
  (** Maps the connections starting from a URI *)
  links : JsObject.t (list Connection);
  (** Maps the connections arriving to a URI *)
  backlinks : JsObject.t (list Connection);
  (** How many times [resolveLinks] registered its three listeners. *)
  monitors : nat;
  (** Trace of the events fired so far, oldest first. *)
  emitted : list Event
}.

Definition new_workspace : FoamWorkspace :=
  mkWorkspace JsObject.empty JsObject.empty JsObject.empty
              JsObject.empty JsObject.empty 0 [].

Definition set_resourcesByName (ws : FoamWorkspace) v : FoamWorkspace :=
  mkWorkspace v (resources ws) (placeholders ws) (links ws) (backlinks ws)
              (monitors ws) (emitted ws).
Definition set_resources (ws : FoamWorkspace) v : FoamWorkspace :=
  mkWorkspace (resourcesByName ws) v (placeholders ws) (links ws)
              (backlinks ws) (monitors ws) (emitted ws).
Definition set_placeholders (ws : FoamWorkspace) v : FoamWorkspace :=
  mkWorkspace (resourcesByName ws) (resources ws) v (links ws)
              (backlinks ws) (monitors ws) (emitted ws).
Definition set_links (ws : FoamWorkspace) v : FoamWorkspace :=
  mkWorkspace (resourcesByName ws) (resources ws) (placeholders ws) v
              (backlinks ws) (monitors ws) (emitted ws).
Definition set_backlinks (ws : FoamWorkspace) v : FoamWorkspace :=
  mkWorkspace (resourcesByName ws) (resources ws) (placeholders ws)
              (links ws) v (monitors ws) (emitted ws).
Definition set_monitors (ws : FoamWorkspace) v : FoamWorkspace :=
  mkWorkspace (resourcesByName ws) (resources ws) (placeholders ws)
              (links ws) (backlinks ws) v (emitted ws).
Definition set_emitted (ws : FoamWorkspace) v : FoamWorkspace :=
  mkWorkspace (resourcesByName ws) (resources ws) (placeholders ws)
              (links ws) (backlinks ws) (monitors ws) v.

(** ** State and exceptions *)

Definition M (A : Type) : Type := FoamWorkspace -> Result (A * FoamWorkspace).

Definition ret {A : Type} (a : A) : M A := fun ws => Ok (a, ws).

Definition bind {A B : Type} (m : M A) (k : A -> M B) : M B :=
  fun ws =>
    match m ws with
    | Ok (a, ws') => k a ws'
    | Raise e => Raise e
    end.

Definition throw {A : Type} (e : Error) : M A := fun _ => Raise e.

Definition modify (f : FoamWorkspace -> FoamWorkspace) : M unit :=
  fun ws => Ok (tt, f ws).

Declare Scope ws_scope.
Delimit Scope ws_scope with ws.
Notation "x <- m ;; k" := (bind m (fun x => k))
  (at level 61, m at next level, right associativity) : ws_scope.
Notation "m ;;; k" := (bind m (fun _ => k))
  (at level 61, right associativity) : ws_scope.

(** [xs.reduce((ws, x) => f(ws, x), workspace)] with a step that may
    throw. *)
Fixpoint reduceM {A : Type} (f : A -> M unit) (xs : list A) : M unit :=
  match xs with
  | [] => ret tt
  | x :: xs' => bind (f x) (fun _ => reduceM f xs')
  end.

(** Run a listener once per registration. *)
Fixpoint repeatM (n : nat) (m : M unit) : M unit :=
  match n with
  | O => ret tt
  | S n' => bind m (fun _ => repeatM n' m)
  end.

(** ** The workspace operations *)

Section Workspace.
Context {E : Externals}.

Fixpoint contains_slash (s : string) : bool :=
  match s with
  | EmptyString => false
  | String c s' => Ascii.eqb c "/" || contains_slash s'
  end.

Definition startsWith_slash (s : string) : bool :=
  match s with
  | String c _ => Ascii.eqb c "/"
  | EmptyString => false
  end.

(** [reference.split('/').length > 1] holds exactly when the string
    contains a separator. *)
Definition getReferenceType (reference : Reference) : ReferenceType :=
  match reference with
  | RefUri _ => ref_uri
  | RefStr s =>
      let isPath := contains_slash s in
      if negb isPath then ref_key
      else
        let isAbsPath := isPath && startsWith_slash s in
        if isAbsPath then ref_absolute_path else ref_relative_path
  end.

Definition pathToResourceId (pathValue : string) : string :=
  let ext := path_parse_ext pathValue in
  if Nat.ltb 0 (String.length ext) then pathValue else pathValue ++ ".md".

Definition uriToResourceId (uri : URI) : string := pathToResourceId (path uri).

Definition pathToResourceName (pathValue : string) : string :=
  path_parse_name pathValue.

Definition uriToResourceName (uri : URI) : string :=
  pathToResourceName (path uri).

Definition pathToPlaceholderId (value : string) : string := value.

Definition uriToPlaceholderId (uri : URI) : string :=
  pathToPlaceholderId (path uri).

(** [Array.prototype.sort] with a comparator: a stable sort; an element
    goes before the first later element it does not compare greater
    than.  For a consistent comparator every stable sort gives this
    result. *)
Fixpoint sort_insert (cmp : string -> string -> Z) (x : string)
    (l : list string) : list string :=
  match l with
  | [] => [x]
  | y :: l' =>
      if Z.leb (cmp x y) 0 then x :: y :: l' else y :: sort_insert cmp x l'
  end.

Fixpoint sort (cmp : string -> string -> Z) (l : list string) : list string :=
  match l with
  | [] => []
  | x :: l' => sort_insert cmp x (sort cmp l')
  end.

(** What a read yields as the result of [find]. *)
Definition found (v : JsObject.Value Resource) : option Found :=
  match v with
  | JsObject.Own r => Some (FoundResource r)
  | JsObject.Inherited m => Some (FoundMember m)
  | JsObject.Undefined => None
  end.

(** [v ?? []] as an array: an inherited member is not one. *)
Definition array_or_empty {A : Type} (v : JsObject.Value (list A))
    : option (list A) :=
  match v with
  | JsObject.Own l => Some l
  | JsObject.Undefined => Some []
  | JsObject.Inherited _ => None
  end.

(** [o[k] = o[k] ?? []; o[k].push(x)]: a missing list is created; an
    inherited member is kept by [??] and has no [push]. *)
Definition push_at {A : Type} (k : string) (x : A) (o : JsObject.t (list A))
    : option (JsObject.t (list A)) :=
  match array_or_empty (JsObject.read k o) with
  | Some l => Some (JsObject.put k (l ++ [x]) (JsObject.put k l o))
  | None => None
  end.

(** [exists].  A normalized id carries an extension, hence a dot, and
    no member of [Object.prototype] has one in its name: reading
    [resources[id]] is a lookup among the own properties (lemma
    [read_at_resource_id] below). *)
Definition exists_ (workspace : FoamWorkspace) (uri : URI) : bool :=
  isSome (JsObject.get (uriToResourceId uri) (resources workspace)).

Definition list_ (workspace : FoamWorkspace) : list Resource :=
  JsObject.values (resources workspace)
  ++ JsObject.values (placeholders workspace).

(** The ['uri'] case of [find]. *)
Definition find_uri (workspace : FoamWorkspace) (uri : URI) : option Resource :=
  if String.eqb (scheme uri) "placeholder" then
    if JsObject.in_ (path uri) (placeholders workspace)
    then Some (RPlaceholder uri) else None
  else
    if exists_ workspace uri
    then JsObject.get (uriToResourceId uri) (resources workspace)
    else None.

(** [find]: what it returns or raises, and the workspace afterwards
    (the short-key branch sorts the stored name list in place). *)
Definition find (workspace : FoamWorkspace) (resourceId : Reference)
    (reference : option URI) : Result (option Found) * FoamWorkspace :=
  match getReferenceType resourceId, resourceId with
  | ref_uri, RefUri uri =>
      (Ok (option_map FoundResource (find_uri workspace uri)), workspace)
  | ref_key, RefStr s =>
      let name := pathToResourceName s in
      let placeholder :=
        found (JsObject.read (pathToPlaceholderId s) (placeholders workspace)) in
      match JsObject.read name (resourcesByName workspace) with
      | JsObject.Undefined => (Ok placeholder, workspace)
      | JsObject.Own [] => (Ok placeholder, workspace)
      | JsObject.Own [p] =>
          (Ok (found (JsObject.read p (resources workspace))), workspace)
      | JsObject.Own paths =>
          let sortedPaths := sort localeCompare paths in
          (Ok match sortedPaths with
              | p :: _ => found (JsObject.read p (resources workspace))
              | [] => None
              end,
           set_resourcesByName workspace
             (JsObject.put name sortedPaths (resourcesByName workspace)))
      (* an inherited function of length 0 passes [paths.length === 0] *)
      | JsObject.Inherited (JsObject.MemberFunction 0) =>
          (Ok placeholder, workspace)
      (* one of length 1 is taken as it is, and its [0] is [undefined] *)
      | JsObject.Inherited (JsObject.MemberFunction 1) =>
          (Ok (found (JsObject.read "undefined" (resources workspace))),
           workspace)
      (* any other member is asked to [sort], which it has not *)
      | JsObject.Inherited _ => (Raise TypeError, workspace)
      end
  | ref_absolute_path, RefStr s =>
      let resourceUri := URI_file s in
      (Ok match JsObject.get (uriToResourceId resourceUri)
                  (resources workspace) with
          | Some r => Some (FoundResource r)
          | None =>
              found (JsObject.read (uriToPlaceholderId resourceUri)
                       (placeholders workspace))
          end, workspace)
  | ref_relative_path, RefStr s =>
      match reference with
      | None => (Ok None, workspace)
      | Some origin =>
          let targetUri := computeRelativeURI origin s in
          (Ok match JsObject.get (uriToResourceId targetUri)
                      (resources workspace) with
              | Some r => Some (FoundResource r)
              | None =>
                  found (JsObject.read (pathToPlaceholderId s)
                           (placeholders workspace))
              end, workspace)
      end
  | _, _ => (Ok None, workspace)
  end.

(** [find] as a step of a computation. *)
Definition findM (resourceId : Reference) (reference : option URI)
    : M (option Found) :=
  fun workspace =>
    match find workspace resourceId reference with
    | (Ok r, ws') => Ok (r, ws')
    | (Raise e, _) => Raise e
    end.

(** [get]: [find] with a uri, or the NotFound error. *)
Definition get (uri : URI) : M Resource :=
  fun workspace =>
    match find_uri workspace uri with
    | Some note => Ok (note, workspace)
    | None => Raise (ResourceNotFound (path uri))
    end.

(** The placeholder branch of [set]: the resource goes straight into
    the placeholder map and no event is fired. *)
Definition set_placeholder (workspace : FoamWorkspace) (resource : Resource)
    : FoamWorkspace :=
  set_placeholders workspace
    (JsObject.put (uriToPlaceholderId (resource_uri resource)) resource
       (placeholders workspace)).

(** [found?.uri ?? dflt]: a member of the prototype has no [uri]. *)
Definition uri_or (r : option Found) (dflt : URI) : URI :=
  match r with
  | Some (FoundResource res) => resource_uri res
  | _ => dflt
  end.

Local Open Scope ws_scope.

Definition resolveLink (note : Note) (link : NoteLink) : M URI :=
  targetUri <-
    match link with
    | WikiLink slug _ =>
        match List.find (fun def => String.eqb (label def) slug)
                (note_definitions note) with
        | Some def =>
            let definedUri := parseUri (note_uri note) (url def) in
            r <- findM (RefUri definedUri) (Some (note_uri note)) ;;
            ret (uri_or r (placeholderUri (path definedUri)))
        | None =>
            r <- findM (RefStr slug) (Some (note_uri note)) ;;
            ret (uri_or r (placeholderUri slug))
        end
    | DirectLink _ target _ =>
        r <- findM (RefStr target) (Some (note_uri note)) ;;
        ret (uri_or r (placeholderUri (path (parseUri (note_uri note) target))))
    end ;;
  if isPlaceholder targetUri
  then
    (* we can only add placeholders when links are being resolved *)
    modify (fun ws => set_placeholder ws (RPlaceholder targetUri)) ;;;
    ret targetUri
  else ret targetUri.

Definition or_empty {A : Type} (o : option (list A)) : list A :=
  match o with Some l => l | None => [] end.

(** [connect].  Should a [push] find no array, the error is raised. *)
Definition connect (source target : URI) (link : NoteLink) : M unit :=
  fun workspace =>
    let connection := mkConnection source target link in
    match push_at (path source) connection (links workspace) with
    | None => Raise TypeError
    | Some links' =>
        let ws1 := set_links workspace links' in
        match push_at (path target) connection (backlinks ws1) with
        | None => Raise TypeError
        | Some backlinks' => Ok (tt, set_backlinks ws1 backlinks')
        end
    end.

Definition isSamePoint (a b : Point) : bool :=
  Z.eqb (column a) (column b) && Z.eqb (line a) (line b).

Definition isSamePosition (a b : Position) : bool :=
  isSamePoint (pos_start a) (pos_start b) && isSamePoint (pos_end a) (pos_end b).

Definition isSameLink (a b : NoteLink) : bool :=
  LinkType_eqb (link_type a) (link_type b)
  && isSamePosition (link_position a) (link_position b).

Definition isSameConnection (a b : Connection) : bool :=
  isSameUri (source a) (source b)
  && isSameUri (target a) (target b)
  && isSameLink (link a) (link b).

(** The [link] argument of [disconnect]: one reference, or [true] for
    every connection between the two resources. *)
Inductive LinkSelector :=
| AllLinks
| OneLink (l : NoteLink).

Definition connectionsToKeep (source target : URI) (link : LinkSelector)
    (c : Connection) : bool :=
  let '(mkConnection c_source c_target _) := c in
  match link with
  | AllLinks =>
      negb (isSameUri source c_source) || negb (isSameUri target c_target)
  | OneLink l => negb (isSameConnection (mkConnection source target l) c)
  end.

(** [disconnect]: filtering a missing list leaves [undefined], whose
    [length] cannot be read, and an inherited member has no [filter]
    to call. *)
Definition disconnect (source target : URI) (link : LinkSelector) : M unit :=
  fun workspace =>
    match JsObject.read (path source) (links workspace) with
    | JsObject.Own out =>
        let out' := filter (connectionsToKeep source target link) out in
        let ws1 :=
          set_links workspace (JsObject.put (path source) out' (links workspace)) in
        let ws2 :=
          if Nat.eqb (length out') 0
          then set_links ws1 (JsObject.del (path source) (links ws1))
          else ws1 in
        match JsObject.read (path target) (backlinks ws2) with
        | JsObject.Own inc =>
            let inc' := filter (connectionsToKeep source target link) inc in
            let ws3 :=
              set_backlinks ws2
                (JsObject.put (path target) inc' (backlinks ws2)) in
            if Nat.eqb (length inc') 0 then
              let ws4 :=
                set_backlinks ws3 (JsObject.del (path target) (backlinks ws3)) in
              if isPlaceholder target
              then Ok (tt, set_placeholders ws4
                             (JsObject.del (uriToPlaceholderId target)
                                (placeholders ws4)))
              else Ok (tt, ws4)
            else Ok (tt, ws3)
        | _ => Raise TypeError
        end
    | _ => Raise TypeError
    end.

Definition resolveResource (resource : Resource) : M unit :=
  match resource with
  | RNote n =>
      modify (fun ws =>
                set_links ws (JsObject.del (path (note_uri n)) (links ws))) ;;;
      reduceM
        (fun link =>
           targetUri <- resolveLink n link ;;
           connect (note_uri n) targetUri link)
        (note_links n)
  | RPlaceholder _ => ret tt
  end.

(** [v.reduce(...)] for [v] read from a connection map with [?? []]: an
    inherited member has no [reduce]. *)
Definition reduce_read (v : JsObject.Value (list Connection))
    (f : Connection -> M unit) : M unit :=
  match array_or_empty v with
  | Some cs => reduceM f cs
  | None => throw TypeError
  end.

(** The [Updated] listener. *)
Definition updateLinksForResource (oldResource newResource : Resource)
    : M unit :=
  if negb (String.eqb (path (resource_uri oldResource))
             (path (resource_uri newResource)))
  then throw UnexpectedState
  else
    match oldResource, newResource with
    | RNote o, RNote n =>
        let patch := diff NoteLink (note_links o) (note_links n) isEqual in
        reduceM
          (fun link =>
             target <- resolveLink o link ;;
             disconnect (note_uri o) target (OneLink link))
          (removed patch) ;;;
        reduceM
          (fun link =>
             target <- resolveLink n link ;;
             connect (note_uri n) target link)
          (added patch)
    | _, _ => ret tt
    end.

(** The [Added] listener.  When the basename names an inherited member
    and no own placeholder, [name in placeholders] holds, the value read
    is that member, and its [uri] is [undefined]. *)
Definition updateLinksRelatedToAddedResource (resource : Resource) : M unit :=
  fun workspace =>
    let name := uriToResourceName (resource_uri resource) in
    ((if JsObject.in_ name (placeholders workspace) then
        match JsObject.read name (placeholders workspace) with
        | JsObject.Own placeholder =>
            modify (fun ws =>
                      set_placeholders ws
                        (JsObject.del name (placeholders ws))) ;;;
            resourcesToUpdate <-
              (fun ws =>
                 Ok (JsObject.read (path (resource_uri placeholder))
                       (backlinks ws), ws)) ;;
            reduce_read resourcesToUpdate
              (fun res =>
                 r <- get (source res) ;;
                 resolveResource r)
        | _ => throw TypeError
        end
      else ret tt) ;;;
     resolveResource resource) workspace.

(** The [Deleted] listener. *)
Definition updateLinksRelatedToDeletedResource (resource : Resource)
    : M unit :=
  let uri := resource_uri resource in
  resourcesPointedByDeletedNote <-
    (fun ws => Ok (JsObject.read (path uri) (links ws), ws)) ;;
  modify (fun ws => set_links ws (JsObject.del (path uri) (links ws))) ;;;
  reduce_read resourcesPointedByDeletedNote
    (fun connection =>
       disconnect uri (target connection) (OneLink (link connection))) ;;;
  notesPointingToDeletedResource <-
    (fun ws => Ok (JsObject.read (path uri) (backlinks ws), ws)) ;;
  modify (fun ws => set_backlinks ws (JsObject.del (path uri) (backlinks ws))) ;;;
  reduce_read notesPointingToDeletedResource
    (fun link =>
       r <- get (source link) ;;
       resolveResource r).

(** Modelled from the spec: [Emitter] lives in [common/event], which is
    not part of the sources at hand.  Delivery is synchronous and inline
    within the mutating call, every registered listener runs once per
    event, and a listener's error is not caught. *)
Definition listener (ev : Event) : M unit :=
  match ev with
  | Added r => updateLinksRelatedToAddedResource r
  | Updated o n => updateLinksForResource o n
  | Deleted r => updateLinksRelatedToDeletedResource r
  end.

Definition fire (ev : Event) : M unit :=
  fun workspace =>
    repeatM (monitors workspace) (listener ev)
      (set_emitted workspace (emitted workspace ++ [ev])).

(** [set].  [find] is called with a uri and takes its ['uri'] case. *)
Definition set (resource : Resource) : M Returned :=
  match resource with
  | RPlaceholder _ =>
      modify (fun ws => set_placeholder ws resource) ;;;
      ret ReturnedWorkspace
  | RNote _ =>
      let id := uriToResourceId (resource_uri resource) in
      old <- (fun ws => Ok (find_uri ws (resource_uri resource), ws)) ;;
      let name := uriToResourceName (resource_uri resource) in
      modify (fun ws =>
                set_resources ws (JsObject.put id resource (resources ws))) ;;;
      (fun ws =>
         match push_at name id (resourcesByName ws) with
         | Some byName => Ok (tt, set_resourcesByName ws byName)
         | None => Raise TypeError
         end) ;;;
      match old with
      | Some o => fire (Updated o resource)
      | None => fire (Added resource)
      end ;;;
      ret ReturnedWorkspace
  end.

(** The part of [delete] that updates the index, before the event. *)
Definition delete_index (uri : URI) : M (option Resource) :=
  fun workspace =>
    let id := uriToResourceId uri in
    let deleted := JsObject.get id (resources workspace) in
    let ws1 := set_resources workspace (JsObject.del id (resources workspace)) in
    let name := uriToResourceName uri in
    match JsObject.read name (resourcesByName ws1) with
    | JsObject.Own ids =>
        let ids' := filter (fun resId => negb (String.eqb resId id)) ids in
        let ws2 :=
          set_resourcesByName ws1 (JsObject.put name ids' (resourcesByName ws1)) in
        if Nat.eqb (length ids') 0
        then Ok (deleted,
                 set_resourcesByName ws2 (JsObject.del name (resourcesByName ws2)))
        else Ok (deleted, ws2)
    | _ => Raise TypeError
    end.

Definition delete (uri : URI) : M Returned :=
  deleted <- delete_index uri ;;
  match deleted with
  | Some d => fire (Deleted d) ;;; ret (ReturnedResource d)
  | None => ret ReturnedNull
  end.

(** [resolveLinks]: the listeners are registered only once every
    resource has been resolved. *)
Definition resolveLinks (workspace : FoamWorkspace) (keepMonitoring : bool)
    : Result FoamWorkspace :=
  let ws0 :=
    set_placeholders
      (set_backlinks (set_links workspace JsObject.empty) JsObject.empty)
      JsObject.empty in
  match reduceM resolveResource (list_ ws0) ws0 with
  | Ok (_, ws1) =>
      Ok (if keepMonitoring then set_monitors ws1 (S (monitors ws1)) else ws1)
  | Raise e => Raise e
  end.

(** What [getLinks] and [getBacklinks] return: a list of connections
    or, for a path that names one, a member of [Object.prototype]. *)
Inductive Connections :=
| ConnectionList (cs : list Connection)
| ConnectionsMember (m : JsObject.Member).

(** [v ?? []] *)
Definition list_or_member (v : JsObject.Value (list Connection))
    : Connections :=
  match v with
  | JsObject.Own cs => ConnectionList cs
  | JsObject.Undefined => ConnectionList []
  | JsObject.Inherited m => ConnectionsMember m
  end.

Definition getAllConnections (workspace : FoamWorkspace) : list Connection :=
  concat (JsObject.values (links workspace)).

(** [getConnections]: an inherited member is kept by [||] and cannot be
    spread. *)
Definition getConnections (workspace : FoamWorkspace) (uri : URI)
    : Result (list Connection) :=
  match array_or_empty (JsObject.read (path uri) (links workspace)),
        array_or_empty (JsObject.read (path uri) (backlinks workspace)) with
  | Some out, Some inc => Ok (out ++ inc)
  | _, _ => Raise TypeError
  end.

Definition getLinks (workspace : FoamWorkspace) (uri : URI) : Connections :=
  list_or_member (JsObject.read (path uri) (links workspace)).

Definition getBacklinks (workspace : FoamWorkspace) (uri : URI)
    : Connections :=
  list_or_member (JsObject.read (path uri) (backlinks workspace)).

End Workspace.

(** ** A concrete implementation of the external collaborators

    Modelled from the spec: the path-resolution utility ("compute
    identifier of X relative to origin Y", "parse a literal reference
    string into an identifier given an origin"), Node's POSIX [path]
    functions, [URI.file], a lexicographic [localeCompare] and a
    longest-common-subsequence list diff.  Percent-decoding, UNC paths
    and references that carry a scheme of their own are left out; a
    comparator closer to the collation of a locale is in [Collation]. *)

Module Posix.

Definition chars := list_ascii_of_string.
Definition str := string_of_list_ascii.

Fixpoint split_on (sep : ascii) (l : list ascii) : list (list ascii) :=
  match l with
  | [] => [[]]
  | c :: l' =>
      if Ascii.eqb c sep then [] :: split_on sep l'
      else
        match split_on sep l' with
        | seg :: segs => (c :: seg) :: segs
        | [] => [[c]]
        end
  end.

Definition nonempty {A : Type} (l : list A) : bool :=
  match l with [] => false | _ => true end.

(** Last non-empty segment: trailing separators are ignored. *)
Definition base_of (p : string) : list ascii :=
  fold_left (fun acc seg => if nonempty seg then seg else acc)
    (split_on "/" (chars p)) [].

(** Index of the last dot, if any. *)
Fixpoint last_dot (l : list ascii) (i : nat) (found : option nat) : option nat :=
  match l with
  | [] => found
  | c :: l' => last_dot l' (S i) (if Ascii.eqb c "." then Some i else found)
  end.

(** [path.parse]: the extension starts at the last dot of the base,
    unless that dot is the first character or the base is [..]. *)
Definition split_ext (p : string) : list ascii * list ascii :=
  let b := base_of p in
  match last_dot b 0 None with
  | None => (b, [])
  | Some 0 => (b, [])
  | Some d =>
      if String.eqb (str b) ".." then (b, []) else (firstn d b, skipn d b)
  end.

Definition parse_name (p : string) : string := str (fst (split_ext p)).
Definition parse_ext (p : string) : string := str (snd (split_ext p)).

Fixpoint join_segs (segs : list (list ascii)) : list ascii :=
  match segs with
  | [] => []
  | [s] => s
  | s :: rest => s ++ "/"%char :: join_segs rest
  end.

(** [path.posix.normalize] on the segments, kept in reverse. *)
Definition normalize_step (absolute : bool) (stack : list (list ascii))
    (seg : list ascii) : list (list ascii) :=
  if negb (nonempty seg) || String.eqb (str seg) "." then stack
  else if String.eqb (str seg) ".." then
    match stack with
    | top :: rest =>
        if String.eqb (str top) ".." then seg :: stack else rest
    | [] => if absolute then [] else [seg]
    end
  else seg :: stack.

Definition normalize (p : string) : string :=
  let cs := chars p in
  let absolute := startsWith_slash p in
  let trailing := match rev cs with c :: _ => Ascii.eqb c "/" | [] => false end in
  let body :=
    join_segs (rev (fold_left (normalize_step absolute) (split_on "/" cs) [])) in
  let body := if negb (nonempty body) && negb absolute then chars "." else body in
  let body := if nonempty body && trailing then body ++ ["/"%char] else body in
  str (if absolute then "/"%char :: body else body).

Fixpoint drop_empty (segs : list (list ascii)) : list (list ascii) :=
  match segs with
  | [] => []
  | seg :: rest => if nonempty seg then segs else drop_empty rest
  end.

(** [path.posix.dirname]: trailing separators are ignored and the last
    segment is dropped. *)
Definition dirname (p : string) : string :=
  let kept := rev (drop_empty (rev (split_on "/" (chars p)))) in
  let dir := join_segs (removelast kept) in
  if nonempty dir then str dir
  else if startsWith_slash p then "/" else ".".

Definition join (a b : string) : string := normalize (a ++ "/" ++ b)%string.

Definition file (p : string) : URI :=
  mkURI "file" "" (if startsWith_slash p then p else ("/" ++ p)%string) "" "".

Definition relative (reference : URI) (relativeSlug : string) : URI :=
  let slug :=
    if negb (String.eqb (parse_ext relativeSlug) "") then relativeSlug
    else (relativeSlug ++ parse_ext (path reference))%string in
  mkURI (scheme reference) (authority reference)
        (join (dirname (path reference)) slug)
        (query reference) (fragment reference).

Definition parse (reference : URI) (value : string) : URI :=
  if startsWith_slash value then file value else relative reference value.

(** Lexicographic comparison of the character codes. *)
Fixpoint compare_chars (a b : list ascii) : Z :=
  match a, b with
  | [], [] => 0
  | [], _ :: _ => -1
  | _ :: _, [] => 1
  | x :: a', y :: b' =>
      if Nat.ltb (nat_of_ascii x) (nat_of_ascii y) then -1
      else if Nat.ltb (nat_of_ascii y) (nat_of_ascii x) then 1
      else compare_chars a' b'
  end.

Definition compare (a b : string) : Z := compare_chars (chars a) (chars b).

(** A longest-common-subsequence diff: what is dropped from the old
    list and what is new in the new list. *)
Fixpoint lcs_diff {A : Type} (eq : A -> A -> bool) (a : list A)
    : list A -> Patch A :=
  match a with
  | [] => fun b => mkPatch [] b
  | x :: a' =>
      fix inner (b : list A) : Patch A :=
        match b with
        | [] => mkPatch a []
        | y :: b' =>
            if eq x y then lcs_diff eq a' b'
            else
              let p1 := lcs_diff eq a' b in
              let p2 := inner b' in
              let p1' := mkPatch (x :: removed p1) (added p1) in
              let p2' := mkPatch (removed p2) (y :: added p2) in
              if Nat.leb (length (removed p1') + length (added p1'))
                         (length (removed p2') + length (added p2'))
              then p1' else p2'
        end
  end.

#[export] Instance posix : Externals := {|
  path_parse_ext := parse_ext;
  path_parse_name := parse_name;
  URI_file := file;
  computeRelativeURI := relative;
  parseUri := parse;
  localeCompare := compare;
  diff := fun A a b eq => lcs_diff eq a b
|}.

End Posix.

(** ** Collation

    [String.prototype.localeCompare] follows the collation of the
    locale, not the character codes: letters are ordered alphabetically
    first, and strings that differ only in case are ordered by case,
    lower case first.  [Collation.compare] does so for the unaccented
    Latin letters; the other characters are ordered by their codes. *)

Module Collation.

Definition is_upper (c : ascii) : bool :=
  Nat.leb 65 (nat_of_ascii c) && Nat.leb (nat_of_ascii c) 90.

Definition fold (c : ascii) : ascii :=
  if is_upper c then ascii_of_nat (nat_of_ascii c + 32) else c.

(** The first difference in case decides, lower case first. *)
Fixpoint compare_case (a b : list ascii) : Z :=
  match a, b with
  | x :: a', y :: b' =>
      if negb (is_upper x) && is_upper y then -1
      else if is_upper x && negb (is_upper y) then 1
      else compare_case a' b'
  | _, _ => 0
  end.

Definition compare (a b : string) : Z :=
  let primary :=
    Posix.compare_chars (map fold (Posix.chars a)) (map fold (Posix.chars b)) in
  if Z.eqb primary 0 then compare_case (Posix.chars a) (Posix.chars b)
  else primary.

(** The collaborators of [Posix] with this comparator. *)
Definition collation : Externals := {|
  path_parse_ext := Posix.parse_ext;
  path_parse_name := Posix.parse_name;
  URI_file := Posix.file;
  computeRelativeURI := Posix.relative;
  parseUri := Posix.parse;
  localeCompare := compare;
  diff := fun A a b eq => Posix.lcs_diff eq a b
|}.

End Collation.

(** ** Properties of the graph and scenarios *)

(** The string holds a dot. *)
Fixpoint contains_dot (s : string) : bool :=
  match s with
  | EmptyString => false
  | String c s' => Ascii.eqb c "." || contains_dot s'
  end.

(** The mutations a caller feeds to the index. *)
Inductive Operation :=
| OpSet (r : Resource)
| OpDelete (u : URI).

Definition run {A : Type} (m : M A) (ws : FoamWorkspace) : Result FoamWorkspace :=
  match m ws with Ok (_, ws') => Ok ws' | Raise e => Raise e end.

Section Properties.
Context {E : Externals}.

Definition apply (op : Operation) : M Returned :=
  match op with
  | OpSet r => set r
  | OpDelete u => delete u
  end.

Definition apply_all (ops : list Operation) : M unit :=
  reduceM (fun op => bind (apply op) (fun _ => ret tt)) ops.

(** Incremental mode: [resolveLinks(true)] on the empty workspace, then
    the operations, each one delivering its event to the listeners. *)
Definition incremental (ops : list Operation) : Result FoamWorkspace :=
  match resolveLinks new_workspace true with
  | Ok ws => run (apply_all ops) ws
  | Raise e => Raise e
  end.

(** The full-rebuild path on the resources a workspace holds. *)
Definition full_rebuild (ws : FoamWorkspace) : Result FoamWorkspace :=
  resolveLinks ws false.

(** What Node's [path.parse] guarantees of an extension: only a path
    that holds a dot has one. *)
Definition ext_has_dot : Prop :=
  forall p, path_parse_ext p <> "" -> contains_dot p = true.

(** Two connection maps with the same keys whose lists hold the same
    connections. *)
Definition same_connections (m1 m2 : JsObject.t (list Connection)) : Prop :=
  forall k,
    match JsObject.get k m1, JsObject.get k m2 with
    | Some l1, Some l2 => forall c, In c l1 <-> In c l2
    | None, None => True
    | _, _ => False
    end.

Definition same_graph (ws1 ws2 : FoamWorkspace) : Prop :=
  same_connections (links ws1) (links ws2)
  /\ same_connections (backlinks ws1) (backlinks ws2)
  /\ (forall k, JsObject.get k (placeholders ws1)
                = JsObject.get k (placeholders ws2)).

(** The outgoing and the incoming list stored for a path, empty when
    none is. *)
Definition outgoing (ws : FoamWorkspace) (uri : URI) : list Connection :=
  or_empty (JsObject.get (path uri) (links ws)).

Definition incoming (ws : FoamWorkspace) (uri : URI) : list Connection :=
  or_empty (JsObject.get (path uri) (backlinks ws)).

(** A connection equal to [c] is listed under key [k]. *)
Definition listed (m : JsObject.t (list Connection)) (k : string)
    (c : Connection) : Prop :=
  exists c', In c' (or_empty (JsObject.get k m)) /\ isSameConnection c c' = true.

Definition symmetric (ws : FoamWorkspace) : Prop :=
  forall c,
    listed (links ws) (path (source c)) c
    <-> listed (backlinks ws) (path (target c)) c.

Definition no_empty_entry (m : JsObject.t (list Connection)) : Prop :=
  forall k, JsObject.get k m <> Some [].

(** Some connection of the incoming map targets the placeholder [id]. *)
Definition placeholder_targeted (ws : FoamWorkspace) (id : string) : Prop :=
  exists k cs c,
    JsObject.get k (backlinks ws) = Some cs /\ In c cs
    /\ isPlaceholder (target c) = true /\ path (target c) = id.

(** The stored resources have pairwise different paths, as they do
    when each one sits under the id of its own uri. *)
Definition distinct_paths (ws : FoamWorkspace) : Prop :=
  NoDup (map (fun r => path (resource_uri r)) (JsObject.values (resources ws))).

(** What the full rebuild maintains while it walks the resources:
    symmetry, no empty list, and outgoing lists only for the paths in
    [done], the notes resolved so far. *)
Definition rebuild_inv (done : list string) (ws : FoamWorkspace) : Prop :=
  symmetric ws
  /\ no_empty_entry (links ws) /\ no_empty_entry (backlinks ws)
  /\ (forall k, JsObject.get k (links ws) <> None -> In k done).

(** The placeholders present are exactly the targeted ones. *)
Definition placeholders_match (ws : FoamWorkspace) : Prop :=
  forall id,
    JsObject.has id (placeholders ws) = true <-> placeholder_targeted ws id.

(** The comparator is a total order on the members of a list. *)
Definition total_order_on (cmp : string -> string -> Z) (l : list string)
    : Prop :=
  (forall a b, In a l -> In b l -> (cmp a b <= 0 \/ cmp b a <= 0)%Z)
  /\ (forall a b c, In a l -> In b l -> In c l ->
        (cmp a b <= 0 -> cmp b c <= 0 -> cmp a c <= 0)%Z)
  /\ (forall a b, In a l -> In b l ->
        (cmp a b <= 0)%Z -> (cmp b a <= 0)%Z -> a = b).

(** What the listeners leave alone: the resources, the event trace and
    the listener registrations. *)
Definition index_kept (ws ws' : FoamWorkspace) : Prop :=
  resources ws' = resources ws /\ emitted ws' = emitted ws
  /\ monitors ws' = monitors ws.

Definition keeps {A : Type} (m : M A) : Prop :=
  forall ws a ws', m ws = Ok (a, ws') -> index_kept ws ws'.

(** [m] is a least member of [l]. *)
Definition least (cmp : string -> string -> Z) (m : string)
    (l : list string) : Prop :=
  In m l /\ forall p, In p l -> (cmp m p <= 0)%Z.

(** The resource index is well formed: no key occurs twice and every
    resource sits under the id of its own uri. *)
Definition index_wf (ws : FoamWorkspace) : Prop :=
  NoDup (JsObject.keys (resources ws))
  /\ forall k r, In (k, r) (resources ws) -> k = uriToResourceId (resource_uri r).

(** Every error a computation can raise satisfies [P]. *)
Definition raises_only {A : Type} (P : Error -> Prop) (m : M A) : Prop :=
  forall ws e, m ws = Raise e -> P e.

Definition is_not_found (e : Error) : Prop := exists p, e = ResourceNotFound p.

(** A list as [disconnect] leaves it in a map: dropped when empty. *)
Definition pruned (l : list Connection) : option (list Connection) :=
  match l with [] => None | _ => Some l end.

(** The workspace that a completed [connect] leaves: the connection
    appended to the outgoing list of the source and to the incoming
    list of the target. *)
Definition connected (ws : FoamWorkspace) (source target : URI)
    (link : NoteLink) : FoamWorkspace :=
  let connection := mkConnection source target link in
  let ws1 :=
    set_links ws
      (JsObject.put (path source)
         (or_empty (JsObject.get (path source) (links ws)) ++ [connection])
         (links ws)) in
  set_backlinks ws1
    (JsObject.put (path target)
       (or_empty (JsObject.get (path target) (backlinks ws1)) ++ [connection])
       (backlinks ws1)).

(** The connection that [connect] creates. *)
Definition connection_of (source target : URI) (link : NoteLink) : Connection :=
  mkConnection source target link.

(** The workspace reached from [ws0] by a list of operations (left
    unchanged should one of them raise). *)
Definition ws_after (ops : list Operation) (ws0 : FoamWorkspace)
    : FoamWorkspace :=
  match run (apply_all ops) ws0 with
  | Ok ws => ws
  | Raise _ => ws0
  end.

(** The workspace a completed computation leaves (the empty one should
    it have raised). *)
Definition ws_of (r : Result FoamWorkspace) : FoamWorkspace :=
  match r with
  | Ok ws => ws
  | Raise _ => new_workspace
  end.

End Properties.

Module Scenario.
#[local] Existing Instance Posix.posix.

(** The empty workspace with the listeners registered. *)
Definition monitored : FoamWorkspace :=
  ws_of (resolveLinks new_workspace true).

Definition at0 : Position := mkPosition (mkPoint 0 0) (mkPoint 0 5).

(** [/a.md] holds one short reference to [b]; [/b.md] holds none. *)
Definition noteA : Resource :=
  RNote (mkNote (Posix.file "/a.md") [WikiLink "b" at0] []).
Definition noteB : Resource := RNote (mkNote (Posix.file "/b.md") [] []).

(** Two notes with the basename [note]. *)
Definition noteA_note : Resource :=
  RNote (mkNote (Posix.file "/a/note.md") [] []).
Definition noteB_note : Resource :=
  RNote (mkNote (Posix.file "/b/note.md") [] []).

(** [/c.md] refers to [/b.md] by its absolute path. *)
Definition noteC : Resource :=
  RNote (mkNote (Posix.file "/c.md") [WikiLink "/b.md" at0] []).

(** [/docs/a.md] holds a short reference whose text is a relative
    path. *)
Definition noteD : Resource :=
  RNote (mkNote (Posix.file "/docs/a.md") [WikiLink "sub/x" at0] []).

(** Both insertion orders of the two [note] resources. *)
Definition wsAB : FoamWorkspace :=
  ws_after [OpSet noteA_note; OpSet noteB_note] new_workspace.
Definition wsBA : FoamWorkspace :=
  ws_after [OpSet noteB_note; OpSet noteA_note] new_workspace.

(** Incremental mode, [/c.md] added before [/b.md]. *)
Definition wsCB : FoamWorkspace :=
  ws_after [OpSet noteC; OpSet noteB] monitored.

(** Incremental mode with the single note [/a.md]. *)
Definition wsA : FoamWorkspace :=
  ws_after [OpSet noteA] monitored.

(** Incremental mode, [/a.md] added before [/b.md]: the promotion of
    the placeholder [b]. *)
Definition wsPromoted : FoamWorkspace :=
  ws_after [OpSet noteA; OpSet noteB] monitored.

(** The connection from [/a.md] to the placeholder [b]. *)
Definition toPlaceholderB : Connection :=
  mkConnection (Posix.file "/a.md") (placeholderUri "b") (WikiLink "b" at0).

(** Full rebuild over the single note [/docs/a.md]. *)
Definition wsD : FoamWorkspace :=
  ws_of (resolveLinks (ws_after [OpSet noteD] new_workspace) false).

Definition placeholderB : Resource := RPlaceholder (placeholderUri "b").

(** [/b] without its extension: the same normalized id as [/b.md]. *)
Definition uriB_bare : URI := mkURI "file" "" "/b" "" "".

(** The note [/b.md] stored, nothing else, no listener. *)
Definition wsB : FoamWorkspace := ws_after [OpSet noteB] new_workspace.

(** The workspace rebuilt from the single note [/a.md]. *)
Definition wsRebuiltA : FoamWorkspace := ws_of (resolveLinks wsA false).

(** The workspace rebuilt from the resources left by the promotion. *)
Definition wsRebuilt : FoamWorkspace := ws_of (full_rebuild wsPromoted).

(** A second [note] under a directory with a capital letter, stored
    after [/a/note.md]; the ids are compared by [Collation.compare]. *)
Definition noteBcap_note : Resource :=
  RNote (mkNote (Posix.file "/B/note.md") [] []).
Definition wsCase : FoamWorkspace :=
  ws_after (E:=Collation.collation) [OpSet noteA_note; OpSet noteBcap_note]
    new_workspace.


(** Names that every object inherits: a note whose basename is
    [constructor], and a note that refers to [constructor]. *)
Definition noteConstructor : Resource :=
  RNote (mkNote (Posix.file "/constructor.md") [] []).
Definition noteToConstructor : Resource :=
  RNote (mkNote (Posix.file "/a.md") [WikiLink "constructor" at0] []).

(** The note that refers to [constructor] stored, no listener. *)
Definition wsToConstructor : FoamWorkspace :=
  ws_after [OpSet noteToConstructor] new_workspace.

(** A later version of [/a.md] with a second reference. *)
Definition at1 : Position := mkPosition (mkPoint 1 0) (mkPoint 1 5).
Definition noteA2 : Resource :=
  RNote (mkNote (Posix.file "/a.md") [WikiLink "b" at0; WikiLink "c" at1] []).

End Scenario.
(** * Lemmas *)

(** ** Association lists *)

Module JsObjectFacts.
Import JsObject.

Section Facts.
Context {V : Type}.
Implicit Types (o : t V) (k : string) (v : V).

Lemma get_put_eq o k v : get k (put k v o) = Some v.
Proof.
  induction o as [|[k' v'] o IH]; simpl.
  - now rewrite String.eqb_refl.
  - destruct (String.eqb k k') eqn:Hk; simpl.
    + now rewrite String.eqb_refl.
    + now rewrite Hk.
Qed.

Lemma get_put_ne o k k' v : k' <> k -> get k' (put k v o) = get k' o.
Proof.
  intros Hne. induction o as [|[k0 v0] o IH]; simpl.
  - destruct (String.eqb_spec k' k); congruence.
  - destruct (String.eqb_spec k k0) as [->|Hk0]; simpl.
    + destruct (String.eqb_spec k' k0); congruence.
    + destruct (String.eqb_spec k' k0); congruence.
Qed.

Lemma get_del_eq o k : get k (del k o) = None.
Proof.
  induction o as [|[k' v'] o IH]; simpl; auto.
  destruct (String.eqb k k') eqn:Hk; simpl; auto.
  now rewrite Hk.
Qed.

Lemma get_del_ne o k k' : k' <> k -> get k' (del k o) = get k' o.
Proof.
  intros Hne. induction o as [|[k0 v0] o IH]; simpl; auto.
  destruct (String.eqb_spec k k0) as [->|Hk0]; simpl.
  - destruct (String.eqb_spec k' k0); congruence.
  - destruct (String.eqb_spec k' k0); congruence.
Qed.

Lemma get_put o k k' v :
  get k' (put k v o) = if String.eqb k' k then Some v else get k' o.
Proof.
  destruct (String.eqb_spec k' k) as [->|Hne].
  - apply get_put_eq.
  - now apply get_put_ne.
Qed.

Lemma get_del o k k' :
  get k' (del k o) = if String.eqb k' k then None else get k' o.
Proof.
  destruct (String.eqb_spec k' k) as [->|Hne].
  - apply get_del_eq.
  - now apply get_del_ne.
Qed.

Lemma keys_put_present o k v v0 :
  get k o = Some v0 -> keys (put k v o) = keys o.
Proof.
  induction o as [|[k' v'] o IH]; simpl; [discriminate|].
  destruct (String.eqb_spec k k') as [->|Hne]; simpl; intros H.
  - reflexivity.
  - unfold keys in *. simpl. f_equal. now apply IH.
Qed.

Lemma get_Some_In o k v : get k o = Some v -> In v (values o).
Proof.
  induction o as [|[k' v'] o IH]; simpl; [discriminate|].
  destruct (String.eqb k k').
  - intros [= ->]. now left.
  - intros H. right. now apply IH.
Qed.

Lemma has_get o k : has k o = true <-> exists v, get k o = Some v.
Proof.
  unfold has. destruct (get k o) as [v|]; split.
  - now exists v.
  - reflexivity.
  - discriminate.
  - intros [v H]. discriminate.
Qed.

Lemma put_put o k v1 v2 : put k v2 (put k v1 o) = put k v2 o.
Proof.
  induction o as [|[k' v'] o IH]; simpl.
  - now rewrite String.eqb_refl.
  - destruct (String.eqb k k') eqn:Hk; simpl.
    + now rewrite String.eqb_refl.
    + now rewrite Hk, IH.
Qed.

Lemma put_same o k v : get k o = Some v -> put k v o = o.
Proof.
  induction o as [|[k' v'] o IH]; simpl; [discriminate|].
  destruct (String.eqb_spec k k') as [->|Hne].
  - now intros [= ->].
  - intros H. now rewrite IH.
Qed.

Lemma has_put o k k' v : has k' (put k v o) = String.eqb k' k || has k' o.
Proof.
  unfold has. rewrite get_put. now destruct (String.eqb k' k).
Qed.

Lemma del_absent o k : get k o = None -> del k o = o.
Proof.
  induction o as [|[k' v'] o IH]; simpl; [reflexivity|].
  destruct (String.eqb k k'); [discriminate|].
  intros H. now rewrite IH.
Qed.

(** Reading a property: own first, then the prototype. *)
Lemma read_Own o k v : read k o = Own v <-> get k o = Some v.
Proof.
  unfold read. destruct (get k o) as [v'|].
  - split; intros [= ->]; reflexivity.
  - destruct (prototype k); split; discriminate.
Qed.

Lemma read_plain o k :
  prototype k = None ->
  read k o = match get k o with Some v => Own v | None => Undefined end.
Proof. unfold read. now intros ->. Qed.

Lemma read_Inherited o k m :
  read k o = Inherited m <-> get k o = None /\ prototype k = Some m.
Proof.
  unfold read. destruct (get k o) as [v|].
  - split; [discriminate|intros [H _]; discriminate].
  - destruct (prototype k) as [m'|].
    + split; [intros [= ->]; now split|intros [_ [= ->]]; reflexivity].
    + split; [discriminate|intros [_ H]; discriminate].
Qed.

Lemma read_Undefined o k :
  read k o = Undefined <-> get k o = None /\ prototype k = None.
Proof.
  unfold read. destruct (get k o) as [v|].
  - split; [discriminate|intros [H _]; discriminate].
  - destruct (prototype k) as [m'|].
    + split; [discriminate|intros [_ H]; discriminate].
    + split; [now split|reflexivity].
Qed.

Lemma in_plain o k : prototype k = None -> in_ k o = has k o.
Proof. unfold in_. intros ->. apply orb_false_r. Qed.

Lemma has_in o k : has k o = true -> in_ k o = true.
Proof. unfold in_. now intros ->. Qed.

End Facts.

(** The names of the members of [Object.prototype]. *)
Lemma prototype_name k m :
  prototype k = Some m -> In k (keys prototype_members).
Proof.
  unfold prototype. induction prototype_members as [|[k' m'] l IH]; simpl.
  - discriminate.
  - destruct (String.eqb_spec k k') as [->|Hne]; [now left|].
    intros H. right. now apply IH.
Qed.

End JsObjectFacts.

(** ** Sorting with a comparator *)

Section SortFacts.
Variable cmp : string -> string -> Z.

Lemma sort_insert_perm x l : Permutation (x :: l) (sort_insert cmp x l).
Proof.
  induction l as [|y l IH]; simpl.
  - apply Permutation_refl.
  - destruct (Z.leb (cmp x y) 0).
    + apply Permutation_refl.
    + eapply perm_trans; [apply perm_swap|]. now apply perm_skip.
Qed.

Lemma sort_perm l : Permutation l (sort cmp l).
Proof.
  induction l as [|x l IH]; simpl.
  - constructor.
  - eapply perm_trans; [|apply sort_insert_perm]. now apply perm_skip.
Qed.

Lemma sort_length l : length (sort cmp l) = length l.
Proof. symmetry. apply Permutation_length, sort_perm. Qed.

Lemma total_order_on_tail x l :
  total_order_on cmp (x :: l) -> total_order_on cmp l.
Proof.
  intros (Ht & Hr & Ha). repeat split.
  - intros a b Ha' Hb'. apply Ht; now right.
  - intros a b c ? ? ?. apply Hr; now right.
  - intros a b ? ?. apply Ha; now right.
Qed.

Lemma total_order_on_perm l l' :
  Permutation l l' -> total_order_on cmp l -> total_order_on cmp l'.
Proof.
  intros HP (Ht & Hr & Ha).
  assert (Hin : forall a, In a l' -> In a l).
  { intros a. apply Permutation_in. now apply Permutation_sym. }
  repeat split.
  - intros a b ? ?. apply Ht; auto.
  - intros a b c ? ? ?. apply Hr; auto.
  - intros a b ? ?. apply Ha; auto.
Qed.

(** The sorted list starts with a least member. *)
Lemma sort_head_least l :
  total_order_on cmp l -> l <> [] ->
  exists m rest, sort cmp l = m :: rest /\ least cmp m l.
Proof.
  induction l as [|x l IH]; intros Hto Hne; [congruence|].
  simpl. destruct l as [|y l].
  - simpl. exists x, []. split; [reflexivity|]. split; [now left|].
    intros p [<-|[]]. destruct Hto as (Ht & _).
    destruct (Ht x x); simpl; auto.
  - destruct IH as (m & rest & Hs & Hin & Hmin).
    + eapply total_order_on_tail; eauto.
    + discriminate.
    + rewrite Hs. simpl. destruct Hto as (Ht & Hr & _).
      destruct (Z.leb (cmp x m) 0) eqn:Hc.
      * apply Z.leb_le in Hc. exists x, (m :: rest). split; [reflexivity|].
        split; [now left|]. intros p [<-|Hp].
        -- destruct (Ht x x); simpl; auto.
        -- apply (Hr x m p); simpl; auto.
      * apply Z.leb_gt in Hc. exists m, (sort_insert cmp x rest).
        split; [reflexivity|]. split; [now right|].
        intros p [<-|Hp]; [|now apply Hmin].
        destruct (Ht m x); simpl; auto. lia.
Qed.

Lemma least_unique l m m' :
  total_order_on cmp l -> least cmp m l -> least cmp m' l -> m = m'.
Proof.
  intros (_ & _ & Ha) [Hin Hmin] [Hin' Hmin']. apply Ha; auto.
Qed.

Lemma least_perm l l' m :
  Permutation l l' -> least cmp m l -> least cmp m l'.
Proof.
  intros HP [Hin Hmin]. split.
  - eapply Permutation_in; eauto.
  - intros p Hp. apply Hmin. eapply Permutation_in; [apply Permutation_sym|]; eauto.
Qed.

End SortFacts.

(** ** What [??] and [push] make of a read *)

Section ArrayFacts.
Context {A : Type}.
Import JsObject.

Lemma array_or_empty_get (o : t (list A)) k l :
  array_or_empty (read k o) = Some l -> l = or_empty (get k o).
Proof.
  unfold read. destruct (get k o) as [l'|]; simpl.
  - now intros [= ->].
  - destruct (prototype k); simpl; [discriminate|now intros [= <-]].
Qed.

Lemma array_or_empty_None (o : t (list A)) k :
  array_or_empty (read k o) = None
  <-> get k o = None /\ prototype k <> None.
Proof.
  unfold read. destruct (get k o) as [l'|]; simpl.
  - split; [discriminate|intros [H _]; discriminate].
  - destruct (prototype k); simpl.
    + split; [intros _; split; [reflexivity|discriminate]|reflexivity].
    + split; [discriminate|intros [_ H]; now contradiction H].
Qed.

Lemma push_at_Some (o o' : t (list A)) k x :
  push_at k x o = Some o' -> o' = put k (or_empty (get k o) ++ [x]) o.
Proof.
  unfold push_at.
  destruct (array_or_empty (read k o)) as [l|] eqn:Hl; [|discriminate].
  apply array_or_empty_get in Hl. subst l.
  intros [= <-]. apply JsObjectFacts.put_put.
Qed.

Lemma push_at_None (o : t (list A)) k x :
  push_at k x o = None <-> get k o = None /\ prototype k <> None.
Proof.
  unfold push_at. rewrite <- array_or_empty_None.
  destruct (array_or_empty (read k o)); split; congruence.
Qed.

End ArrayFacts.

(** ** Facts about [find] *)

Section FindFacts.
Context {E : Externals}.
Import JsObject.

Lemma getReferenceType_key s :
  getReferenceType (RefStr s) = ref_key <-> contains_slash s = false.
Proof.
  unfold getReferenceType. destruct (contains_slash s); simpl.
  - destruct (startsWith_slash s); split; discriminate.
  - tauto.
Qed.

Lemma getReferenceType_relative s :
  getReferenceType (RefStr s) = ref_relative_path
  <-> contains_slash s = true /\ startsWith_slash s = false.
Proof.
  unfold getReferenceType. destruct (contains_slash s); simpl.
  - destruct (startsWith_slash s); split; try discriminate; try tauto.
    intros [_ H]; discriminate.
  - split; [discriminate|]. intros [H _]; discriminate.
Qed.

Lemma find_uri_plain ws uri :
  isPlaceholder uri = false ->
  find_uri ws uri = get (uriToResourceId uri) (resources ws).
Proof.
  unfold find_uri, isPlaceholder, exists_. intros ->.
  now destruct (get (uriToResourceId uri) (resources ws)).
Qed.

Lemma find_RefUri ws uri origin :
  find ws (RefUri uri) origin
  = (Ok (option_map FoundResource (find_uri ws uri)), ws).
Proof. reflexivity. Qed.

(** The short-key branch when the name list holds at least two ids. *)
Lemma find_key_many ws s origin paths :
  getReferenceType (RefStr s) = ref_key ->
  get (pathToResourceName s) (resourcesByName ws) = Some paths ->
  2 <= length paths ->
  find ws (RefStr s) origin =
    (Ok match sort localeCompare paths with
        | p :: _ => found (read p (resources ws))
        | [] => None
        end,
     set_resourcesByName ws
       (put (pathToResourceName s) (sort localeCompare paths)
          (resourcesByName ws))).
Proof.
  intros Hk Hg Hl. unfold find. rewrite Hk.
  rewrite (proj2 (JsObjectFacts.read_Own _ _ _) Hg).
  destruct paths as [|p1 [|p2 rest]]; simpl in Hl; try lia. reflexivity.
Qed.

(** [find] changes the workspace only in the short-key branch, and
    then only an own name list of two or more ids. *)
Lemma find_state ws ref origin :
  snd (find ws ref origin) = ws
  \/ exists s paths,
       ref = RefStr s /\ getReferenceType ref = ref_key
       /\ get (pathToResourceName s) (resourcesByName ws) = Some paths
       /\ 2 <= length paths
       /\ snd (find ws ref origin)
          = set_resourcesByName ws
              (put (pathToResourceName s) (sort localeCompare paths)
                 (resourcesByName ws)).
Proof.
  unfold find. destruct ref as [u|s]; [now left|].
  destruct (getReferenceType (RefStr s)) eqn:Hrt; try (now left).
  - left. now destruct origin.
  - destruct (read (pathToResourceName s) (resourcesByName ws))
      as [[|p1 [|p2 rest]]|[[|[|k]]|]|] eqn:Hg; try (now left).
    right. exists s, (p1 :: p2 :: rest).
    apply JsObjectFacts.read_Own in Hg.
    repeat split; auto. simpl. lia.
Qed.

Lemma find_frame ws ref origin :
  let ws' := snd (find ws ref origin) in
  resources ws' = resources ws /\ placeholders ws' = placeholders ws
  /\ links ws' = links ws /\ backlinks ws' = backlinks ws
  /\ monitors ws' = monitors ws /\ emitted ws' = emitted ws.
Proof.
  simpl. destruct (find_state ws ref origin) as [->|(s & paths & _ & _ & _ & _ & ->)];
    simpl; tauto.
Qed.

Lemma findM_ok ref origin ws r ws' :
  findM ref origin ws = Ok (r, ws') -> find ws ref origin = (Ok r, ws').
Proof.
  unfold findM. destruct (find ws ref origin) as [[r0|e] ws0]; [|discriminate].
  now intros [= -> ->].
Qed.

Lemma findM_raise ref origin ws e :
  findM ref origin ws = Raise e -> fst (find ws ref origin) = Raise e.
Proof.
  unfold findM. destruct (find ws ref origin) as [[r0|e0] ws0]; [discriminate|].
  now intros [= ->].
Qed.

(** The only error of [find] is the [TypeError] of the short-key
    branch, for a name that is read from the prototype. *)
Lemma find_raise ws ref origin e :
  fst (find ws ref origin) = Raise e ->
  e = TypeError
  /\ exists s m,
       ref = RefStr s /\ getReferenceType ref = ref_key
       /\ read (pathToResourceName s) (resourcesByName ws) = Inherited m.
Proof.
  unfold find. destruct ref as [u|s]; [discriminate|].
  destruct (getReferenceType (RefStr s)) eqn:Hrt; simpl; try discriminate.
  - destruct origin; discriminate.
  - destruct (read (pathToResourceName s) (resourcesByName ws))
      as [[|p1 [|p2 rest]]|m|] eqn:Hg; simpl; try discriminate.
    destruct m as [[|[|k]]|]; simpl; try discriminate;
      intros [= <-]; (split; [reflexivity|]); eexists s, _; eauto.
Qed.

End FindFacts.

(** ** The lexicographic comparator is a total order *)

Module PosixFacts.
Import Posix.

Lemma nat_of_ascii_inj x y : nat_of_ascii x = nat_of_ascii y -> x = y.
Proof.
  intros H. rewrite <- (ascii_nat_embedding x), <- (ascii_nat_embedding y).
  now rewrite H.
Qed.

Lemma compare_chars_total a : forall b,
  (compare_chars a b <= 0 \/ compare_chars b a <= 0)%Z.
Proof.
  induction a as [|x a IH]; intros [|y b]; simpl; try lia.
  destruct (Nat.ltb_spec (nat_of_ascii x) (nat_of_ascii y));
    destruct (Nat.ltb_spec (nat_of_ascii y) (nat_of_ascii x));
    try lia. apply IH.
Qed.

Lemma compare_chars_trans a : forall b c,
  (compare_chars a b <= 0 -> compare_chars b c <= 0 -> compare_chars a c <= 0)%Z.
Proof.
  induction a as [|x a IH]; intros [|y b] [|z c]; simpl; try lia.
  destruct (Nat.ltb_spec (nat_of_ascii x) (nat_of_ascii y));
    destruct (Nat.ltb_spec (nat_of_ascii y) (nat_of_ascii x));
    destruct (Nat.ltb_spec (nat_of_ascii y) (nat_of_ascii z));
    destruct (Nat.ltb_spec (nat_of_ascii z) (nat_of_ascii y));
    destruct (Nat.ltb_spec (nat_of_ascii x) (nat_of_ascii z));
    destruct (Nat.ltb_spec (nat_of_ascii z) (nat_of_ascii x));
    try lia. apply IH.
Qed.

Lemma compare_chars_antisym a : forall b,
  (compare_chars a b <= 0)%Z -> (compare_chars b a <= 0)%Z -> a = b.
Proof.
  induction a as [|x a IH]; intros [|y b]; simpl; try lia; auto.
  destruct (Nat.ltb_spec (nat_of_ascii x) (nat_of_ascii y));
    destruct (Nat.ltb_spec (nat_of_ascii y) (nat_of_ascii x));
    try lia.
  intros H1 H2. f_equal.
  - apply nat_of_ascii_inj. lia.
  - now apply IH.
Qed.

Lemma chars_inj a b : chars a = chars b -> a = b.
Proof.
  unfold chars. intros H.
  rewrite <- (string_of_list_ascii_of_string a),
          <- (string_of_list_ascii_of_string b).
  now rewrite H.
Qed.

Lemma compare_total_order l : total_order_on Posix.compare l.
Proof.
  unfold Posix.compare. repeat split.
  - intros a b _ _. apply compare_chars_total.
  - intros a b c _ _ _. apply compare_chars_trans.
  - intros a b _ _ H1 H2. apply chars_inj. now apply compare_chars_antisym.
Qed.

End PosixFacts.
(** ** Normalized ids are not inherited names *)

Lemma contains_dot_plain s :
  contains_dot s = true -> JsObject.prototype s = None.
Proof.
  intros Hs. destruct (JsObject.prototype s) as [m|] eqn:Hp; [|reflexivity].
  apply JsObjectFacts.prototype_name in Hp. simpl in Hp.
  repeat (destruct Hp as [<-|Hp]; [discriminate Hs|]). destruct Hp.
Qed.

Lemma contains_dot_md s : contains_dot (s ++ ".md") = true.
Proof.
  induction s as [|c s IH]; simpl; [reflexivity|].
  rewrite IH. apply orb_true_r.
Qed.

(** When [path.parse] gives an extension only to a path that holds a
    dot, reading a map at a normalized id yields an own property or
    nothing. *)
Lemma read_at_resource_id {E : Externals} {V : Type} (o : JsObject.t V)
    (uri : URI) :
  ext_has_dot ->
  JsObject.read (uriToResourceId uri) o
  = match JsObject.get (uriToResourceId uri) o with
    | Some v => JsObject.Own v
    | None => JsObject.Undefined
    end.
Proof.
  intros Hext. apply JsObjectFacts.read_plain, contains_dot_plain.
  unfold uriToResourceId, pathToResourceId.
  destruct (path_parse_ext (path uri)) as [|c ext] eqn:He; simpl.
  - apply contains_dot_md.
  - apply Hext. rewrite He. discriminate.
Qed.

Module PosixExtFacts.
Import Posix.

Lemma contains_dot_chars s :
  In "."%char (chars s) -> contains_dot s = true.
Proof.
  unfold chars. induction s as [|c s IH]; simpl; [tauto|].
  intros [->|H]; [reflexivity|]. rewrite IH by exact H. apply orb_true_r.
Qed.

Lemma split_on_chars sep l : forall seg c,
  In seg (split_on sep l) -> In c seg -> In c l.
Proof.
  induction l as [|x l IH]; intros seg c Hseg Hc; simpl in Hseg.
  - destruct Hseg as [<-|[]]. destruct Hc.
  - destruct (Ascii.eqb x sep).
    + destruct Hseg as [<-|Hseg]; [destruct Hc|]. right. eapply IH; eauto.
    + destruct (split_on sep l) as [|s0 segs] eqn:Hs.
      * destruct Hseg as [<-|[]]. destruct Hc as [<-|[]]. now left.
      * destruct Hseg as [<-|Hseg].
        -- destruct Hc as [<-|Hc]; [now left|]. right.
           eapply IH; [left; reflexivity|exact Hc].
        -- right. eapply IH; [right; exact Hseg|exact Hc].
Qed.

Lemma fold_pick_in (segs : list (list ascii)) : forall acc,
  let b := fold_left (fun acc seg => if nonempty seg then seg else acc)
             segs acc in
  b = acc \/ In b segs.
Proof.
  induction segs as [|s segs IH]; intros acc; simpl; [now left|].
  destruct (IH (if nonempty s then s else acc)) as [H|H].
  - destruct (nonempty s).
    + right. left. now rewrite H.
    + now left.
  - right. now right.
Qed.

Lemma base_of_chars p c : In c (base_of p) -> In c (chars p).
Proof.
  unfold base_of. intros H.
  destruct (fold_pick_in (split_on "/" (chars p)) []) as [Hb|Hb].
  - rewrite Hb in H. destruct H.
  - eapply split_on_chars; eauto.
Qed.

Lemma last_dot_in l : forall i found d,
  last_dot l i found = Some d -> found = Some d \/ In "."%char l.
Proof.
  induction l as [|c l IH]; intros i found d H; simpl in H; [now left|].
  destruct (IH _ _ _ H) as [Hf|Hin]; [|right; now right].
  destruct (Ascii.eqb_spec c ".") as [->|_]; [right; now left|now left].
Qed.

(** [Posix.parse_ext] gives an extension only to a path that holds a
    dot. *)
Lemma parse_ext_has_dot : ext_has_dot (E:=posix).
Proof.
  intros p H. simpl in H. unfold parse_ext, split_ext in H.
  apply contains_dot_chars, base_of_chars.
  destruct (last_dot (base_of p) 0 None) as [[|d]|] eqn:Hd;
    try (now contradiction H).
  apply last_dot_in in Hd. destruct Hd as [Hd|Hd]; [discriminate|exact Hd].
Qed.

End PosixExtFacts.

(** ** Names with a separator are not inherited *)

Lemma contains_slash_plain s :
  contains_slash s = true -> JsObject.prototype s = None.
Proof.
  intros Hs. destruct (JsObject.prototype s) as [m|] eqn:Hp; [|reflexivity].
  apply JsObjectFacts.prototype_name in Hp. simpl in Hp.
  repeat (destruct Hp as [<-|Hp]; [discriminate Hs|]). destruct Hp.
Qed.

(** * The claims *)

(** ** [find] *)

(** C10: [find] never adds or removes entries in the resources,
    placeholders, links or backlinks maps.  Either it leaves the
    workspace as it was, or the reference is a short key whose name list
    holds two or more ids and the only change is that this stored list
    is replaced by its sorted permutation, under the same key and with
    every other name list untouched. *)
Theorem find_only_sorts_name_list {E : Externals}
    (ws : FoamWorkspace) (ref : Reference) (origin : option URI) :
  let ws' := snd (find ws ref origin) in
  (resources ws' = resources ws /\ placeholders ws' = placeholders ws
   /\ links ws' = links ws /\ backlinks ws' = backlinks ws)
  /\ (ws' = ws
      \/ exists s paths,
           ref = RefStr s /\ getReferenceType ref = ref_key
           /\ JsObject.get (pathToResourceName s) (resourcesByName ws) = Some paths
           /\ 2 <= length paths
           /\ ws' = set_resourcesByName ws
                      (JsObject.put (pathToResourceName s)
                         (sort localeCompare paths) (resourcesByName ws)))
  /\ (forall s paths,
        ref = RefStr s -> getReferenceType ref = ref_key ->
        JsObject.get (pathToResourceName s) (resourcesByName ws) = Some paths ->
        2 <= length paths ->
        JsObject.get (pathToResourceName s) (resourcesByName ws')
          = Some (sort localeCompare paths)
        /\ Permutation paths (sort localeCompare paths)
        /\ JsObject.keys (resourcesByName ws') = JsObject.keys (resourcesByName ws)
        /\ forall k, k <> pathToResourceName s ->
             JsObject.get k (resourcesByName ws')
               = JsObject.get k (resourcesByName ws)).
Proof.
  intros ws'. split; [|split].
  - pose proof (find_frame ws ref origin) as H. simpl in H. subst ws'. tauto.
  - subst ws'. apply find_state.
  - intros s paths -> Hk Hg Hl. subst ws'.
    rewrite (find_key_many ws s origin paths Hk Hg Hl). simpl.
    repeat split.
    + apply JsObjectFacts.get_put_eq.
    + apply sort_perm.
    + eapply JsObjectFacts.keys_put_present; eauto.
    + intros k Hne. now apply JsObjectFacts.get_put_ne.
Qed.

Lemma find_only_sorts_name_list_witness :
  2 <= length ["/b/note.md"; "/a/note.md"]
  /\ JsObject.get "note"
       (resourcesByName
          (snd (find (E:=Posix.posix) Scenario.wsBA (RefStr "note") None)))
     = Some (sort Posix.compare ["/b/note.md"; "/a/note.md"]).
Proof.
  split; [simpl; lia|].
  apply (proj2 (proj2 (find_only_sorts_name_list (E:=Posix.posix)
                         Scenario.wsBA (RefStr "note") None))
           "note" ["/b/note.md"; "/a/note.md"]).
  - reflexivity.
  - reflexivity.
  - reflexivity.
  - simpl; lia.
Defined.

(** C8: for a relative-path reference, [find] returns no match, and no
    error, when no origin is supplied; with an origin it looks up the
    identifier computed relative to the origin in the resources and, on
    a miss, falls back to the placeholder keyed by the raw reference
    string.  (A relative path holds a separator, so the fallback reads
    an own property or nothing.) *)
Theorem find_relative_path {E : Externals} (ws : FoamWorkspace) (s : string) :
  getReferenceType (RefStr s) = ref_relative_path ->
  find ws (RefStr s) None = (Ok None, ws)
  /\ forall origin,
       find ws (RefStr s) (Some origin)
       = (Ok (option_map FoundResource
                match JsObject.get (uriToResourceId (computeRelativeURI origin s))
                        (resources ws) with
                | Some r => Some r
                | None => JsObject.get s (placeholders ws)
                end), ws).
Proof.
  intros H. unfold find. rewrite H. split; [reflexivity|].
  intros origin.
  apply getReferenceType_relative in H. destruct H as [Hs _].
  unfold pathToPlaceholderId.
  rewrite (JsObjectFacts.read_plain _ _ (contains_slash_plain s Hs)).
  destruct (JsObject.get (uriToResourceId _) _); [reflexivity|].
  now destruct (JsObject.get s (placeholders ws)).
Qed.

Lemma find_relative_path_witness :
  getReferenceType (RefStr "sub/x") = ref_relative_path
  /\ find (E:=Posix.posix) Scenario.wsD (RefStr "sub/x") None
     = (Ok None, Scenario.wsD)
  /\ fst (find (E:=Posix.posix) Scenario.wsD (RefStr "sub/x")
            (Some (Posix.file "/docs/a.md")))
     = Ok (Some (FoundResource (RPlaceholder (placeholderUri "sub/x"))))
  /\ JsObject.get
       (path (computeRelativeURI (Externals:=Posix.posix)
                (Posix.file "/docs/a.md") "sub/x"))
       (placeholders Scenario.wsD) = None.
Proof.
  destruct (find_relative_path (E:=Posix.posix) Scenario.wsD "sub/x" eq_refl)
    as [Hnone Hsome].
  split; [reflexivity|]. split; [exact Hnone|]. split.
  - rewrite Hsome. reflexivity.
  - reflexivity.
Defined.

(** C7, as stated, fails: the ids are ordered by [localeCompare], not
    lexicographically.  With notes at [/a/note.md] and [/B/note.md] and
    a comparator that looks at the letters before their case, [find]
    of [note] returns the note at [/a/note.md], although [/B/note.md]
    is the lexicographically smaller id. *)
Lemma find_short_key_not_lexicographic :
  JsObject.get "note" (resourcesByName Scenario.wsCase)
  = Some ["/a/note.md"; "/B/note.md"]
  /\ (Posix.compare "/B/note.md" "/a/note.md" < 0)%Z
  /\ (Collation.compare "/a/note.md" "/B/note.md" < 0)%Z
  /\ fst (find (E:=Collation.collation) Scenario.wsCase (RefStr "note") None)
     = Ok (Some (FoundResource Scenario.noteA_note)).
Proof. repeat split. Qed.

(** C7, amended: when a short key's basename maps to two or more ids,
    [find] sorts them with [localeCompare] and returns what is stored
    under the first.  When [localeCompare] orders the ids totally, that
    is the least id in its order, whatever the insertion order was: every
    workspace with the same resources whose name list is a permutation
    of this one gives the same result.  For two ids on which
    [localeCompare] returns 0, the one inserted first is returned. *)
Theorem find_short_key_takes_first_sorted {E : Externals}
    (ws : FoamWorkspace) (s : string) (origin : option URI)
    (paths : list string) :
  getReferenceType (RefStr s) = ref_key ->
  JsObject.get (pathToResourceName s) (resourcesByName ws) = Some paths ->
  2 <= length paths ->
  (exists m rest,
     sort localeCompare paths = m :: rest
     /\ Permutation paths (m :: rest)
     /\ fst (find ws (RefStr s) origin)
        = Ok (found (JsObject.read m (resources ws))))
  /\ (total_order_on localeCompare paths ->
      exists m,
        least localeCompare m paths
        /\ fst (find ws (RefStr s) origin)
           = Ok (found (JsObject.read m (resources ws)))
        /\ forall ws2 paths2 origin2,
             (forall k, JsObject.get k (resources ws2)
                        = JsObject.get k (resources ws)) ->
             JsObject.get (pathToResourceName s) (resourcesByName ws2)
             = Some paths2 ->
             Permutation paths paths2 ->
             fst (find ws2 (RefStr s) origin2)
             = Ok (found (JsObject.read m (resources ws))))
  /\ (forall a b,
        paths = [a; b] ->
        localeCompare a b = 0%Z -> localeCompare b a = 0%Z ->
        fst (find ws (RefStr s) origin)
        = Ok (found (JsObject.read a (resources ws)))).
Proof.
  intros Hk Hg Hl.
  assert (Hread : forall (w w2 : FoamWorkspace) m,
             (forall k, JsObject.get k (resources w2)
                        = JsObject.get k (resources w)) ->
             JsObject.read m (resources w2) = JsObject.read m (resources w)).
  { intros w w2 m H. unfold JsObject.read. now rewrite H. }
  split; [|split].
  - pose proof (sort_perm localeCompare paths) as HP.
    destruct (sort localeCompare paths) as [|m rest] eqn:Hs.
    + apply Permutation_length in HP. simpl in HP. lia.
    + exists m, rest. split; [reflexivity|]. split; [exact HP|].
      rewrite (find_key_many ws s origin paths Hk Hg Hl). simpl.
      now rewrite Hs.
  - intros Hto.
    destruct (sort_head_least localeCompare paths Hto) as (m & rest & Hs & Hm).
    { destruct paths; simpl in Hl; [lia|discriminate]. }
    exists m. split; [exact Hm|]. split.
    + rewrite (find_key_many ws s origin paths Hk Hg Hl). simpl. now rewrite Hs.
    + intros ws2 paths2 origin2 Hres Hg2 HP.
      assert (Hl2 : 2 <= length paths2).
      { now rewrite <- (Permutation_length HP). }
      pose proof (total_order_on_perm _ _ _ HP Hto) as Hto2.
      destruct (sort_head_least localeCompare paths2 Hto2)
        as (m2 & rest2 & Hs2 & Hm2).
      { destruct paths2; simpl in Hl2; [lia|discriminate]. }
      rewrite (find_key_many ws2 s origin2 paths2 Hk Hg2 Hl2). simpl.
      rewrite Hs2, (Hread ws ws2 m2 Hres). do 3 f_equal.
      eapply least_unique; [exact Hto2|exact Hm2|].
      eapply least_perm; eauto.
  - intros a b -> Hab _.
    rewrite (find_key_many ws s origin [a; b] Hk Hg Hl). simpl.
    now rewrite Hab.
Qed.

Lemma find_short_key_takes_first_sorted_witness :
  total_order_on Posix.compare ["/b/note.md"; "/a/note.md"]
  /\ fst (find (E:=Posix.posix) Scenario.wsBA (RefStr "note") None)
     = Ok (Some (FoundResource Scenario.noteA_note))
  /\ fst (find (E:=Posix.posix) Scenario.wsAB (RefStr "note") None)
     = Ok (Some (FoundResource Scenario.noteA_note)).
Proof.
  split; [apply PosixFacts.compare_total_order|].
  destruct (proj1 (proj2 (find_short_key_takes_first_sorted (E:=Posix.posix)
                            Scenario.wsBA "note" None
                            ["/b/note.md"; "/a/note.md"] eq_refl eq_refl
                            (le_n 2)))
              (PosixFacts.compare_total_order _))
    as (m & [Hin Hmin] & Hfind & Hperm).
  assert (Hm : m = "/a/note.md").
  { destruct Hin as [<-|[<-|[]]]; [|reflexivity].
    specialize (Hmin "/a/note.md" (or_intror (or_introl eq_refl))).
    exfalso. apply Hmin. reflexivity. }
  subst m. split.
  - rewrite Hfind. reflexivity.
  - rewrite (Hperm Scenario.wsAB ["/a/note.md"; "/b/note.md"] None).
    + reflexivity.
    + intros k. change (resources Scenario.wsAB)
        with [("/a/note.md", Scenario.noteA_note); ("/b/note.md", Scenario.noteB_note)].
      change (resources Scenario.wsBA)
        with [("/b/note.md", Scenario.noteB_note); ("/a/note.md", Scenario.noteA_note)].
      simpl.
      destruct (String.eqb_spec k "/a/note.md") as [Ha|Ha];
        destruct (String.eqb_spec k "/b/note.md") as [Hb|Hb];
        try reflexivity. rewrite Ha in Hb. discriminate Hb.
    + reflexivity.
    + apply perm_swap.
Defined.

(** ** [exists] *)

(** C9, as stated, fails: in incremental mode, after [/c.md] (which
    refers to [/b.md]) and then [/b.md] are added, the placeholder
    [/b.md] is still returned by [list()] and [exists] answers [true]
    for its placeholder uri. *)
Lemma exists_true_for_listed_placeholder :
  isPlaceholder (placeholderUri "/b.md") = true
  /\ In (RPlaceholder (placeholderUri "/b.md"))
        (list_ Scenario.wsCB)
  /\ exists_ (E:=Posix.posix) Scenario.wsCB (placeholderUri "/b.md") = true.
Proof.
  split; [reflexivity|]. split.
  - vm_compute. auto 10.
  - reflexivity.
Qed.

(** C9, amended: [exists(uri)] is [true] exactly when something is
    stored in the resources map under the normalized id (the path, with
    [.md] appended when it has no extension); it never consults the
    placeholders map, so for a placeholder uri it is [false] whenever no
    resource is stored under the normalized id of its path, even when
    the placeholder is returned by [list()]. *)
Theorem exists_reads_resources_only {E : Externals}
    (ws : FoamWorkspace) (uri : URI) :
  (exists_ ws uri = true
   <-> exists r, JsObject.get (uriToResourceId uri) (resources ws) = Some r)
  /\ uriToResourceId uri
     = (if String.eqb (path_parse_ext (path uri)) ""
        then (path uri ++ ".md")%string else path uri)
  /\ (forall ph, exists_ (set_placeholders ws ph) uri = exists_ ws uri)
  /\ (forall p,
        JsObject.get (path uri) (placeholders ws) = Some p ->
        JsObject.get (uriToResourceId uri) (resources ws) = None ->
        In p (list_ ws) /\ exists_ ws uri = false).
Proof.
  unfold exists_. split; [|split; [|split]].
  - destruct (JsObject.get (uriToResourceId uri) (resources ws)) as [r|]; split.
    + intros _. now exists r.
    + reflexivity.
    + discriminate.
    + intros [r Hr]. discriminate Hr.
  - unfold uriToResourceId, pathToResourceId.
    destruct (path_parse_ext (path uri)); reflexivity.
  - intros ph. reflexivity.
  - intros p Hp Hr. split.
    + unfold list_. apply in_or_app. right.
      eapply JsObjectFacts.get_Some_In; eauto.
    + now rewrite Hr.
Qed.

Lemma exists_reads_resources_only_witness :
  JsObject.get "b" (placeholders Scenario.wsA) = Some Scenario.placeholderB
  /\ In Scenario.placeholderB (list_ Scenario.wsA)
  /\ exists_ (E:=Posix.posix) Scenario.wsA (placeholderUri "b") = false.
Proof.
  split; [reflexivity|].
  apply (proj2 (proj2 (proj2 (exists_reads_resources_only (E:=Posix.posix)
                                Scenario.wsA (placeholderUri "b"))))
           Scenario.placeholderB); reflexivity.
Defined.

(** ** Computations that complete *)

Section MonadFacts.

Lemma bind_ok {A B : Type} (m : M A) (k : A -> M B) ws b ws' :
  bind m k ws = Ok (b, ws') ->
  exists a ws1, m ws = Ok (a, ws1) /\ k a ws1 = Ok (b, ws').
Proof.
  unfold bind. destruct (m ws) as [[a ws1]|e]; [|discriminate].
  intros H. now exists a, ws1.
Qed.

Lemma bind_raise {A B : Type} (m : M A) (k : A -> M B) ws e :
  bind m k ws = Raise e ->
  m ws = Raise e \/ exists a ws1, m ws = Ok (a, ws1) /\ k a ws1 = Raise e.
Proof.
  unfold bind. destruct (m ws) as [[a ws1]|e1].
  - intros H. right. now exists a, ws1.
  - intros [= ->]. now left.
Qed.

(** A property kept by every step is kept by the fold. *)
Lemma reduceM_invariant {A : Type} (P : FoamWorkspace -> Prop)
    (f : A -> M unit) (xs : list A) :
  (forall x ws u ws', In x xs -> f x ws = Ok (u, ws') -> P ws -> P ws') ->
  forall ws u ws', reduceM f xs ws = Ok (u, ws') -> P ws -> P ws'.
Proof.
  induction xs as [|x xs IH]; intros Hf ws u ws' H HP; simpl in H.
  - now injection H as _ <-.
  - apply bind_ok in H. destruct H as (u1 & ws1 & H1 & H2).
    eapply IH; [|exact H2|].
    + intros y w v w' Hy. apply Hf. now right.
    + eapply Hf; [now left|exact H1|exact HP].
Qed.

End MonadFacts.

(** ** What the listeners leave alone *)

Section Frames.
Context {E : Externals}.

Lemma index_kept_refl ws : index_kept ws ws.
Proof. unfold index_kept; tauto. Qed.

Lemma index_kept_trans ws1 ws2 ws3 :
  index_kept ws1 ws2 -> index_kept ws2 ws3 -> index_kept ws1 ws3.
Proof. unfold index_kept. intuition congruence. Qed.

Lemma keeps_ret {A : Type} (a : A) : keeps (ret a).
Proof. intros ws a' ws' [= _ <-]. apply index_kept_refl. Qed.

Lemma keeps_throw {A : Type} (e : Error) : keeps (@throw A e).
Proof. intros ws a ws' H. discriminate. Qed.

Lemma keeps_bind {A B : Type} (m : M A) (k : A -> M B) :
  keeps m -> (forall a, keeps (k a)) -> keeps (bind m k).
Proof.
  intros Hm Hk ws b ws' H. apply bind_ok in H.
  destruct H as (a & ws1 & H1 & H2).
  eapply index_kept_trans; [eapply Hm; eauto|eapply Hk; eauto].
Qed.

Lemma keeps_read {A : Type} (f : FoamWorkspace -> A) :
  keeps (fun ws => Ok (f ws, ws)).
Proof. intros ws a ws' [= _ <-]. apply index_kept_refl. Qed.

Lemma keeps_modify (f : FoamWorkspace -> FoamWorkspace) :
  (forall ws, index_kept ws (f ws)) -> keeps (modify f).
Proof. intros Hf ws a ws' [= _ <-]. apply Hf. Qed.

Lemma keeps_reduceM {A : Type} (f : A -> M unit) (xs : list A) :
  (forall x, keeps (f x)) -> keeps (reduceM f xs).
Proof.
  intros Hf. induction xs as [|x xs IH]; simpl.
  - apply keeps_ret.
  - apply keeps_bind; auto.
Qed.

Lemma keeps_repeatM (n : nat) (m : M unit) : keeps m -> keeps (repeatM n m).
Proof.
  intros Hm. induction n as [|n IH]; simpl.
  - apply keeps_ret.
  - apply keeps_bind; auto.
Qed.

Lemma keeps_reduce_read v (f : Connection -> M unit) :
  (forall c, keeps (f c)) -> keeps (reduce_read v f).
Proof.
  intros Hf. unfold reduce_read.
  destruct (array_or_empty v); [now apply keeps_reduceM|apply keeps_throw].
Qed.

Lemma find_kept ws ref origin : index_kept ws (snd (find ws ref origin)).
Proof.
  pose proof (find_frame ws ref origin) as H. simpl in H.
  unfold index_kept. tauto.
Qed.

Lemma findM_keeps ref origin : keeps (findM ref origin).
Proof.
  intros ws r ws' H. apply findM_ok in H.
  pose proof (find_kept ws ref origin) as Hk. now rewrite H in Hk.
Qed.

Lemma set_placeholder_kept ws r : index_kept ws (set_placeholder ws r).
Proof. unfold set_placeholder, index_kept; simpl; tauto. Qed.

(** A completed [connect] has appended the connection on both sides. *)
Lemma connect_ok s t l ws u ws' :
  connect s t l ws = Ok (u, ws') -> ws' = connected ws s t l.
Proof.
  unfold connect.
  destruct (push_at (path s) _ (links ws)) as [links'|] eqn:Hl; [|discriminate].
  apply push_at_Some in Hl. subst links'.
  match goal with
  | |- context [push_at (path t) ?c (backlinks ?w)] =>
      destruct (push_at (path t) c (backlinks w)) as [backlinks'|] eqn:Hb;
        [|discriminate]
  end.
  apply push_at_Some in Hb. subst backlinks'.
  now intros [= _ <-].
Qed.

(** [connect] completes unless one of the two lists is read from the
    prototype, and then it raises a [TypeError]. *)
Lemma connect_outcome s t l ws :
  (connect s t l ws = Ok (tt, connected ws s t l)
   /\ array_or_empty (JsObject.read (path s) (links ws)) <> None
   /\ array_or_empty (JsObject.read (path t) (backlinks ws)) <> None)
  \/ (connect s t l ws = Raise TypeError
      /\ (array_or_empty (JsObject.read (path s) (links ws)) = None
          \/ array_or_empty (JsObject.read (path t) (backlinks ws)) = None)).
Proof.
  destruct (connect s t l ws) as [[[] ws']|e] eqn:Hc.
  - left. rewrite (connect_ok _ _ _ _ _ _ Hc). split; [reflexivity|].
    unfold connect, push_at in Hc.
    destruct (array_or_empty (JsObject.read (path s) (links ws)));
      [|discriminate].
    simpl in Hc.
    destruct (array_or_empty (JsObject.read (path t) (backlinks ws)));
      [|discriminate].
    split; discriminate.
  - right. unfold connect, push_at in Hc.
    destruct (array_or_empty (JsObject.read (path s) (links ws)));
      [|injection Hc as <-; split; [reflexivity|now left]].
    simpl in Hc.
    destruct (array_or_empty (JsObject.read (path t) (backlinks ws)));
      [discriminate|].
    injection Hc as <-. split; [reflexivity|now right].
Qed.

Lemma connected_kept ws s t l : index_kept ws (connected ws s t l).
Proof. unfold connected, index_kept; simpl; tauto. Qed.

Lemma connect_keeps s t l : keeps (connect s t l).
Proof.
  intros ws u ws' H. rewrite (connect_ok _ _ _ _ _ _ H).
  apply connected_kept.
Qed.

(** What a completed [resolveLink] has done: one [find], then the
    target recorded when it is a placeholder uri. *)
Lemma resolveLink_ok n l ws t ws' :
  resolveLink n l ws = Ok (t, ws') ->
  exists ref dflt r ws1,
    find ws ref (Some (note_uri n)) = (Ok r, ws1)
    /\ isPlaceholder dflt = true
    /\ t = uri_or r dflt
    /\ ws' = (if isPlaceholder t
              then set_placeholder ws1 (RPlaceholder t) else ws1).
Proof.
  unfold resolveLink. intros H. apply bind_ok in H.
  destruct H as (t0 & ws1 & Hfind & Hrest).
  assert (Hfin : t = t0
                 /\ ws' = (if isPlaceholder t0
                           then set_placeholder ws1 (RPlaceholder t0)
                           else ws1)).
  { destruct (isPlaceholder t0).
    - apply bind_ok in Hrest. destruct Hrest as ([] & ws2 & H1 & H2).
      injection H1 as <-. injection H2 as <- <-. now split.
    - injection Hrest as <- <-. now split. }
  destruct Hfin as [-> ->].
  destruct l as [slug pos|lbl tgt pos].
  - destruct (List.find _ _) as [def|].
    + apply bind_ok in Hfind. destruct Hfind as (r & ws2 & Hf & Hr).
      injection Hr as <- <-. apply findM_ok in Hf.
      exists (RefUri (parseUri (note_uri n) (url def))),
        (placeholderUri (path (parseUri (note_uri n) (url def)))), r, ws2.
      auto.
    + apply bind_ok in Hfind. destruct Hfind as (r & ws2 & Hf & Hr).
      injection Hr as <- <-. apply findM_ok in Hf.
      exists (RefStr slug), (placeholderUri slug), r, ws2. auto.
  - apply bind_ok in Hfind. destruct Hfind as (r & ws2 & Hf & Hr).
    injection Hr as <- <-. apply findM_ok in Hf.
    exists (RefStr tgt), (placeholderUri (path (parseUri (note_uri n) tgt))),
      r, ws2. auto.
Qed.

(** [resolveLink] leaves the graph, the resources and the trace alone
    and records the target exactly when it is a placeholder uri. *)
Lemma resolveLink_effect n l ws t ws' :
  resolveLink n l ws = Ok (t, ws') ->
  links ws' = links ws /\ backlinks ws' = backlinks ws
  /\ index_kept ws ws'
  /\ placeholders ws'
     = (if isPlaceholder t
        then JsObject.put (path t) (RPlaceholder t) (placeholders ws)
        else placeholders ws).
Proof.
  intros H. apply resolveLink_ok in H.
  destruct H as (ref & dflt & r & ws1 & Hf & _ & _ & ->).
  pose proof (find_frame ws ref (Some (note_uri n))) as Hfr.
  rewrite Hf in Hfr. simpl in Hfr.
  destruct Hfr as (Hr & Hp & Hl & Hb & Hm & He).
  unfold index_kept.
  destruct (isPlaceholder t); simpl;
    unfold uriToPlaceholderId, pathToPlaceholderId; simpl;
    rewrite ?Hp; tauto.
Qed.

Lemma resolveLink_keeps n l : keeps (resolveLink n l).
Proof.
  intros ws t ws' H. now apply resolveLink_effect in H.
Qed.

(** The only error of [resolveLink] is the [TypeError] of [find]. *)
Lemma resolveLink_raise n l ws e :
  resolveLink n l ws = Raise e -> e = TypeError.
Proof.
  unfold resolveLink. intros H. apply bind_raise in H.
  destruct H as [H|(t & ws1 & _ & H)].
  - assert (Hf : forall ref (k : option Found -> M URI),
               (forall r w e', k r w <> Raise e') ->
               bind (findM ref (Some (note_uri n))) k ws = Raise e ->
               e = TypeError).
    { intros ref k Hk Hb. apply bind_raise in Hb.
      destruct Hb as [Hb|(r & w & _ & Hb)]; [|now apply Hk in Hb].
      apply findM_raise, find_raise in Hb. tauto. }
    destruct l as [slug pos|lbl tgt pos].
    + destruct (List.find _ _) as [def|];
        (eapply Hf; [|exact H]); intros r w e'; discriminate.
    + eapply Hf; [|exact H]. intros r w e'; discriminate.
  - destruct (isPlaceholder t); discriminate H.
Qed.

Lemma resolve_step_keeps n (l : NoteLink) :
  keeps (bind (resolveLink n l) (fun t => connect (note_uri n) t l)).
Proof.
  apply keeps_bind; [apply resolveLink_keeps|].
  intros t. apply connect_keeps.
Qed.

Lemma resolveResource_keeps r : keeps (resolveResource r).
Proof.
  destruct r as [n|u]; simpl; [|apply keeps_ret].
  apply keeps_bind.
  - apply keeps_modify. intros ws. unfold index_kept; simpl; tauto.
  - intros _. apply keeps_reduceM. intros l. apply resolve_step_keeps.
Qed.

Lemma get_ok uri ws r ws' :
  get uri ws = Ok (r, ws') -> find_uri ws uri = Some r /\ ws' = ws.
Proof.
  unfold get. destruct (find_uri ws uri); [|discriminate].
  now intros [= -> ->].
Qed.

Lemma get_keeps uri : keeps (get uri).
Proof.
  intros ws r ws' H. apply get_ok in H. destruct H as [_ ->].
  apply index_kept_refl.
Qed.

Lemma disconnect_keeps s t l : keeps (disconnect s t l).
Proof.
  intros ws a ws' H. unfold disconnect in H.
  destruct (JsObject.read (path s) (links ws)) as [out| |]; try discriminate.
  match type of H with
  | context [JsObject.read (path t) (backlinks ?w)] =>
      destruct (JsObject.read (path t) (backlinks w)) as [inc| |];
        try discriminate
  end.
  repeat match type of H with
         | context [if ?b then _ else _] => destruct b
         end;
    injection H as _ <-; unfold index_kept; simpl; tauto.
Qed.

Lemma resolve_source_keeps (c : Connection) :
  keeps (bind (get (source c)) (fun r => resolveResource r)).
Proof.
  apply keeps_bind; [apply get_keeps|].
  intros r. apply resolveResource_keeps.
Qed.

Lemma updateLinksForResource_keeps o n : keeps (updateLinksForResource o n).
Proof.
  unfold updateLinksForResource.
  destruct (negb _); [apply keeps_throw|].
  destruct o as [o|u]; [|apply keeps_ret].
  destruct n as [n|u]; [|apply keeps_ret].
  apply keeps_bind; [|intros _].
  - apply keeps_reduceM. intros l. apply keeps_bind.
    + apply resolveLink_keeps.
    + intros t. apply disconnect_keeps.
  - apply keeps_reduceM. intros l. apply resolve_step_keeps.
Qed.

Lemma updateLinksRelatedToAddedResource_keeps r :
  keeps (updateLinksRelatedToAddedResource r).
Proof.
  intros ws a ws'. unfold updateLinksRelatedToAddedResource.
  refine (keeps_bind _ _ _ _ ws a ws').
  - destruct (JsObject.in_ _ _); [|apply keeps_ret].
    destruct (JsObject.read _ _) as [p| |]; try apply keeps_throw.
    apply keeps_bind; [|intros _; apply keeps_bind].
    + apply keeps_modify. intros w. unfold index_kept; simpl; tauto.
    + apply (keeps_read (fun w => JsObject.read _ (backlinks w))).
    + intros cs. apply keeps_reduce_read. intros c. apply resolve_source_keeps.
  - intros _. apply resolveResource_keeps.
Qed.

Lemma updateLinksRelatedToDeletedResource_keeps r :
  keeps (updateLinksRelatedToDeletedResource r).
Proof.
  unfold updateLinksRelatedToDeletedResource.
  apply keeps_bind;
    [apply (keeps_read (fun w => JsObject.read _ (links w)))|].
  intros cs. apply keeps_bind.
  { apply keeps_modify. intros ws. unfold index_kept; simpl; tauto. }
  intros _. apply keeps_bind.
  { apply keeps_reduce_read. intros c. apply disconnect_keeps. }
  intros _. apply keeps_bind;
    [apply (keeps_read (fun w => JsObject.read _ (backlinks w)))|].
  intros cs'. apply keeps_bind.
  { apply keeps_modify. intros ws. unfold index_kept; simpl; tauto. }
  intros _. apply keeps_reduce_read. intros c. apply resolve_source_keeps.
Qed.

Lemma listener_keeps ev : keeps (listener ev).
Proof.
  destruct ev; simpl.
  - apply updateLinksRelatedToAddedResource_keeps.
  - apply updateLinksForResource_keeps.
  - apply updateLinksRelatedToDeletedResource_keeps.
Qed.

(** Firing an event appends it to the trace and touches no resource. *)
Lemma fire_trace ev ws a ws' :
  fire ev ws = Ok (a, ws') ->
  resources ws' = resources ws /\ emitted ws' = emitted ws ++ [ev].
Proof.
  unfold fire. intros H.
  apply (keeps_repeatM _ _ (listener_keeps ev)) in H.
  destruct H as (Hr & He & _). simpl in *. tauto.
Qed.

Lemma fire_unmonitored ev ws :
  monitors ws = 0 ->
  fire ev ws = Ok (tt, set_emitted ws (emitted ws ++ [ev])).
Proof. unfold fire. intros ->. reflexivity. Qed.

End Frames.

(** ** [set] and [delete] *)

Section SetDelete.
Context {E : Externals}.

(** The note branch of [set], step by step. *)
Lemma set_note_steps n ws :
  set (RNote n) ws =
    let id := uriToResourceId (note_uri n) in
    let name := uriToResourceName (note_uri n) in
    let old := find_uri ws (note_uri n) in
    let ws2 := set_resources ws (JsObject.put id (RNote n) (resources ws)) in
    match push_at name id (resourcesByName ws2) with
    | None => Raise TypeError
    | Some byName =>
        match fire (match old with
                    | Some o => Updated o (RNote n)
                    | None => Added (RNote n)
                    end) (set_resourcesByName ws2 byName) with
        | Ok (_, ws5) => Ok (ReturnedWorkspace, ws5)
        | Raise e => Raise e
        end
    end.
Proof.
  unfold set, bind, modify, ret. simpl.
  destruct (push_at _ _ _); [|reflexivity].
  destruct (find_uri ws (note_uri n)); reflexivity.
Qed.

(** [delete] raises as soon as the name index has no list of its own
    for the basename. *)
Lemma delete_unknown_name uri ws :
  JsObject.get (uriToResourceName uri) (resourcesByName ws) = None ->
  delete uri ws = Raise TypeError.
Proof.
  intros H. unfold delete, bind, delete_index, JsObject.read. simpl.
  rewrite H. now destruct (JsObject.prototype _).
Qed.

(** [disconnect] raises when the source has no outgoing list of its
    own. *)
Lemma disconnect_no_list s t sel ws :
  JsObject.get (path s) (links ws) = None ->
  disconnect s t sel ws = Raise TypeError.
Proof.
  intros H. unfold disconnect, JsObject.read. rewrite H.
  now destruct (JsObject.prototype _).
Qed.

(** The [Deleted] listener raises whenever the deleted resource still
    has an outgoing connection: the list is removed from the map before
    [disconnect] filters it. *)
Lemma deleted_listener_raises r ws c cs :
  JsObject.get (path (resource_uri r)) (links ws) = Some (c :: cs) ->
  updateLinksRelatedToDeletedResource r ws = Raise TypeError.
Proof.
  intros H. unfold updateLinksRelatedToDeletedResource.
  unfold bind at 1. rewrite (proj2 (JsObjectFacts.read_Own _ _ _) H).
  unfold bind at 1, modify at 1. unfold bind at 1.
  unfold reduce_read. simpl. unfold bind at 1.
  rewrite disconnect_no_list; [reflexivity|].
  simpl. apply JsObjectFacts.get_del_eq.
Qed.

End SetDelete.




(** C5: on the empty workspace [delete] of a uri that was never stored
    raises a [TypeError] instead of returning [null]: the name index
    has no list to filter. *)
Theorem delete_missing_raises :
  JsObject.get (uriToResourceId (E:=Posix.posix) (Posix.file "/a.md"))
    (resources new_workspace) = None
  /\ delete (E:=Posix.posix) (Posix.file "/a.md") new_workspace
     = Raise TypeError.
Proof. split; reflexivity. Qed.

(** C4: in incremental mode, once [/a.md] with its one reference has
    been added, deleting it makes the [Deleted] listener call
    [disconnect] for that connection, and the call raises a
    [TypeError]. *)
Theorem deleted_listener_disconnect_raises :
  exists ws1 ws2 c,
    incremental (E:=Posix.posix) [OpSet Scenario.noteA] = Ok ws1
    /\ getLinks ws1 (Posix.file "/a.md") = ConnectionList [c]
    /\ delete_index (E:=Posix.posix) (Posix.file "/a.md") ws1
       = Ok (Some Scenario.noteA, ws2)
    /\ disconnect (Posix.file "/a.md") (target c)
         (OneLink (link c))
         (set_links ws2 (JsObject.del "/a.md" (links ws2)))
       = Raise TypeError
    /\ updateLinksRelatedToDeletedResource (E:=Posix.posix) Scenario.noteA ws2
       = Raise TypeError.
Proof.
  do 3 eexists. split; [vm_compute; reflexivity|].
  split; [vm_compute; reflexivity|].
  split; [vm_compute; reflexivity|].
  split; vm_compute; reflexivity.
Qed.

(** ** Placeholders and the incoming map *)

Section PlaceholderFacts.
Context {E : Externals}.
Import JsObject.

(** One step of the resolver, a resolved reference followed by its
    connection, keeps placeholders and incoming connections matched. *)
Lemma resolve_connect_match n l s ws t ws1 :
  resolveLink n l ws = Ok (t, ws1) ->
  placeholders_match ws ->
  placeholders_match (connected ws1 s t l).
Proof.
  intros Hres Hinv.
  destruct (resolveLink_effect _ _ _ _ _ Hres) as (_ & Hb & _ & Hp).
  intros id. unfold placeholder_targeted. unfold connected at 1. simpl.
  rewrite Hp. split.
  - intros Hhas.
    assert (Hcase : (isPlaceholder t = true /\ id = path t)
                    \/ has id (placeholders ws) = true).
    { destruct (isPlaceholder t); [|now right].
      rewrite JsObjectFacts.has_put in Hhas. apply orb_true_iff in Hhas.
      destruct Hhas as [Heq|Hhas]; [left|now right].
      apply String.eqb_eq in Heq. now split. }
    destruct Hcase as [[Ht ->]|Hold].
    + exists (path t), (or_empty (get (path t) (backlinks ws1)) ++ [mkConnection s t l]),
        (mkConnection s t l).
      unfold connected. simpl. rewrite JsObjectFacts.get_put_eq.
      repeat split; auto. apply in_or_app. right. now left.
    + apply Hinv in Hold. destruct Hold as (k & cs & c & Hg & Hin & Hc & Hid).
      unfold connected. simpl. rewrite Hb.
      destruct (String.eqb_spec k (path t)) as [->|Hne].
      * exists (path t), (cs ++ [mkConnection s t l]), c.
        rewrite JsObjectFacts.get_put_eq, Hg. simpl.
        repeat split; auto. apply in_or_app. now left.
      * exists k, cs, c. rewrite JsObjectFacts.get_put_ne by assumption.
        repeat split; auto.
  - intros (k & cs & c & Hg & Hin & Hc & Hid).
    unfold connected in Hg. simpl in Hg. rewrite Hb in Hg.
    assert (Hcase : (c = mkConnection s t l)
                    \/ placeholder_targeted ws id).
    { destruct (String.eqb_spec k (path t)) as [->|Hne].
      - rewrite JsObjectFacts.get_put_eq in Hg. injection Hg as <-.
        apply in_app_or in Hin. destruct Hin as [Hin|[<-|[]]]; [|now left].
        right. destruct (get (path t) (backlinks ws)) as [old|] eqn:Hold;
          [|destruct Hin].
        exists (path t), old, c. repeat split; auto.
      - rewrite JsObjectFacts.get_put_ne in Hg by assumption.
        right. exists k, cs, c. repeat split; auto. }
    destruct Hcase as [->|Hold].
    + simpl in Hc, Hid. rewrite Hc, JsObjectFacts.has_put, <- Hid, String.eqb_refl.
      reflexivity.
    + apply Hinv in Hold. destruct (isPlaceholder t); [|exact Hold].
      rewrite JsObjectFacts.has_put, Hold. apply orb_true_r.
Qed.

Lemma resolve_step_match n l ws u ws' :
  bind (resolveLink n l) (fun t => connect (note_uri n) t l) ws = Ok (u, ws') ->
  placeholders_match ws -> placeholders_match ws'.
Proof.
  intros H Hinv. apply bind_ok in H. destruct H as (t & ws1 & Hres & Hc).
  rewrite (connect_ok _ _ _ _ _ _ Hc).
  eapply resolve_connect_match; eauto.
Qed.

Lemma resolveResource_match r ws u ws' :
  resolveResource r ws = Ok (u, ws') ->
  placeholders_match ws -> placeholders_match ws'.
Proof.
  destruct r as [n|p]; simpl; [|now intros [= _ <-]].
  intros H Hinv. apply bind_ok in H. destruct H as ([] & ws0 & H0 & H).
  injection H0 as <-.
  eapply (reduceM_invariant placeholders_match); [|exact H|exact Hinv].
  intros l w v w' _. apply resolve_step_match.
Qed.

Lemma resolveLinks_ok ws keep ws' :
  resolveLinks ws keep = Ok ws' ->
  exists ws1,
    reduceM resolveResource (values (resources ws))
      (set_placeholders
         (set_backlinks (set_links ws empty) empty) empty) = Ok (tt, ws1)
    /\ ws' = (if keep then set_monitors ws1 (S (monitors ws1)) else ws1).
Proof.
  unfold resolveLinks, list_. simpl. rewrite app_nil_r.
  destruct (reduceM _ _ _) as [[[] ws1]|e]; [|discriminate].
  intros [= <-]. now exists ws1.
Qed.

Lemma resolveLinks_match ws keep ws' :
  resolveLinks ws keep = Ok ws' -> placeholders_match ws'.
Proof.
  intros H. apply resolveLinks_ok in H. destruct H as (ws1 & H & ->).
  assert (H1 : placeholders_match ws1).
  { eapply (reduceM_invariant placeholders_match); [|exact H|].
    - intros r w v w' _. apply resolveResource_match.
    - intros id. split; [discriminate|].
      intros (k & cs & c & Hg & _). discriminate. }
  destruct keep; exact H1.
Qed.

(** When [disconnect] leaves no incoming list under a placeholder
    target, it has removed the placeholder too; when a list remains,
    the placeholders are untouched. *)
Lemma disconnect_placeholder s t l ws ws' :
  disconnect s t l ws = Ok (tt, ws') ->
  isPlaceholder t = true ->
  (get (path t) (backlinks ws') = None ->
   has (path t) (placeholders ws') = false)
  /\ (get (path t) (backlinks ws') <> None ->
      placeholders ws' = placeholders ws).
Proof.
  intros H Ht. unfold disconnect in H.
  destruct (read (path s) (links ws)) as [out| |]; try discriminate.
  match type of H with
  | context [read (path t) (backlinks ?w)] =>
      destruct (read (path t) (backlinks w)) as [inc| |] eqn:Hinc;
        try discriminate
  end.
  rewrite Ht in H.
  destruct (Nat.eqb (length (filter (connectionsToKeep s t l) inc)) 0) eqn:Hlen;
    injection H as <-; simpl.
  - split.
    + intros _. unfold has, uriToPlaceholderId, pathToPlaceholderId.
      now rewrite JsObjectFacts.get_del_eq.
    + rewrite JsObjectFacts.get_del_eq. congruence.
  - split.
    + rewrite JsObjectFacts.get_put_eq. discriminate.
    + intros _. now destruct (Nat.eqb (length _) 0).
Qed.

End PlaceholderFacts.

(** C3, as stated, fails: a public [set] of a placeholder, and likewise
    a public [resolveLink] of an unresolved reference, leaves the
    placeholder present although no connection of the incoming map
    targets it; after the promotion of the placeholder [b] in
    incremental mode a connection of the incoming map still targets it
    although it is no longer present; and a full rebuild over a note
    that refers to [constructor] raises a [TypeError]. *)
Lemma set_placeholder_is_untargeted :
  (exists ws',
     set (E:=Posix.posix) Scenario.placeholderB new_workspace
     = Ok (ReturnedWorkspace, ws')
     /\ JsObject.has "b" (placeholders ws') = true
     /\ ~ placeholder_targeted ws' "b")
  /\ (exists ws',
        resolveLink (E:=Posix.posix)
          (mkNote (Posix.file "/a.md") [WikiLink "b" Scenario.at0] [])
          (WikiLink "b" Scenario.at0) new_workspace
        = Ok (placeholderUri "b", ws')
        /\ JsObject.has "b" (placeholders ws') = true
        /\ ~ placeholder_targeted ws' "b")
  /\ (incremental (E:=Posix.posix) [OpSet Scenario.noteA; OpSet Scenario.noteB]
      = Ok Scenario.wsPromoted
      /\ JsObject.has "b" (placeholders Scenario.wsPromoted) = false
      /\ placeholder_targeted Scenario.wsPromoted "b")
  /\ resolveLinks (E:=Posix.posix) Scenario.wsToConstructor false
     = Raise TypeError.
Proof.
  split; [|split; [|split]].
  - eexists. split; [reflexivity|]. split; [reflexivity|].
    intros (k & cs & c & Hg & _). discriminate Hg.
  - eexists. split; [reflexivity|]. split; [reflexivity|].
    intros (k & cs & c & Hg & _). discriminate Hg.
  - split; [vm_compute; reflexivity|]. split; [reflexivity|].
    exists "b", [Scenario.toPlaceholderB], Scenario.toPlaceholderB.
    split; [reflexivity|]. split; [now left|]. split; reflexivity.
  - reflexivity.
Qed.

(** C3, amended: when a full rebuild by [resolveLinks] completes, a
    placeholder id is present in the placeholders map iff at least one
    connection of the incoming map targets that placeholder, and a
    [resolveResource] that completes keeps it so; a [disconnect] that
    leaves no incoming list under its placeholder target has removed the
    placeholder in the same call, while one that leaves a list keeps the
    placeholders as they were. *)
Theorem placeholders_match_after_rebuild {E : Externals} :
  (forall ws keepMonitoring ws' id,
     resolveLinks ws keepMonitoring = Ok ws' ->
     (JsObject.has id (placeholders ws') = true
      <-> placeholder_targeted ws' id))
  /\ (forall ws r ws',
        resolveResource r ws = Ok (tt, ws') ->
        placeholders_match ws -> placeholders_match ws')
  /\ (forall s t l ws ws',
        disconnect s t l ws = Ok (tt, ws') ->
        isPlaceholder t = true ->
        (JsObject.get (path t) (backlinks ws') = None ->
         JsObject.has (path t) (placeholders ws') = false)
        /\ (JsObject.get (path t) (backlinks ws') <> None ->
            placeholders ws' = placeholders ws)).
Proof.
  split; [|split].
  - intros ws keep ws' id H. now apply (resolveLinks_match ws keep ws' H).
  - intros ws r ws'. apply resolveResource_match.
  - intros s t l ws ws'. apply disconnect_placeholder.
Qed.

Lemma placeholders_match_after_rebuild_witness :
  (JsObject.has "b" (placeholders Scenario.wsRebuiltA) = true
   <-> placeholder_targeted Scenario.wsRebuiltA "b")
  /\ isPlaceholder (placeholderUri "b") = true
  /\ exists ws',
       disconnect (Posix.file "/a.md") (placeholderUri "b")
         (OneLink (WikiLink "b" Scenario.at0)) Scenario.wsA
       = Ok (tt, ws')
       /\ JsObject.get "b" (backlinks ws') = None
       /\ JsObject.has "b" (placeholders ws') = false.
Proof.
  split.
  { apply (proj1 (placeholders_match_after_rebuild (E:=Posix.posix))
             Scenario.wsA false).
    reflexivity. }
  split; [reflexivity|].
  destruct (disconnect (Posix.file "/a.md") (placeholderUri "b")
              (OneLink (WikiLink "b" Scenario.at0)) Scenario.wsA)
    as [[[] ws']|e] eqn:Hd; [|vm_compute in Hd; discriminate Hd].
  exists ws'. split; [reflexivity|].
  assert (Hb : JsObject.get "b" (backlinks ws') = None).
  { vm_compute in Hd. injection Hd as <-. reflexivity. }
  split; [exact Hb|].
  exact (proj1 (proj2 (proj2 (placeholders_match_after_rebuild (E:=Posix.posix)))
                  _ _ _ _ _ Hd eq_refl) Hb).
Defined.

(** ** Symmetry and the full rebuild *)

Section RebuildFacts.
Context {E : Externals}.
Import JsObject.

Lemma isSameUri_path a b : isSameUri a b = true -> path a = path b.
Proof.
  unfold isSameUri. intros H.
  repeat (apply andb_true_iff in H; destruct H as [H ?]).
  now apply String.eqb_eq.
Qed.

Lemma isSameConnection_paths c c' :
  isSameConnection c c' = true ->
  path (source c) = path (source c') /\ path (target c) = path (target c').
Proof.
  unfold isSameConnection. intros H.
  apply andb_true_iff in H. destruct H as [H _].
  apply andb_true_iff in H. destruct H as [Hs Ht].
  split; now apply isSameUri_path.
Qed.

(** Appending a connection under a key lists it there and nowhere
    else. *)
Lemma listed_put_append m k0 c0 k c :
  listed (put k0 (or_empty (get k0 m) ++ [c0]) m) k c
  <-> listed m k c \/ (k = k0 /\ isSameConnection c c0 = true).
Proof.
  unfold listed. rewrite JsObjectFacts.get_put.
  destruct (String.eqb_spec k k0) as [->|Hne]; simpl.
  - split.
    + intros (c' & Hin & Hsame). apply in_app_or in Hin.
      destruct Hin as [Hin|[<-|[]]]; [left; now exists c'|right; now split].
    + intros [(c' & Hin & Hsame)|[_ Hsame]].
      * exists c'. split; [apply in_or_app; now left|exact Hsame].
      * exists c0. split; [apply in_or_app; right; now left|exact Hsame].
  - split.
    + intros H. now left.
    + intros [H|[Hk _]]; [exact H|contradiction].
Qed.

Lemma connected_symmetric ws s t l :
  symmetric ws -> symmetric (connected ws s t l).
Proof.
  intros Hsym c. unfold connected. simpl.
  rewrite !listed_put_append, (Hsym c).
  split; intros [H|[Hk Hsame]]; auto; right; split; auto;
    apply isSameConnection_paths in Hsame; simpl in Hsame; tauto.
Qed.

Lemma no_empty_put_append m k0 (c0 : Connection) :
  no_empty_entry m -> no_empty_entry (put k0 (or_empty (get k0 m) ++ [c0]) m).
Proof.
  intros H k. rewrite JsObjectFacts.get_put.
  destruct (String.eqb k k0); [|apply H].
  intros [= Heq]. now destruct (or_empty (get k0 m)).
Qed.

Lemma connected_rebuild_inv done ws s t l :
  rebuild_inv done ws -> rebuild_inv (path s :: done) (connected ws s t l).
Proof.
  intros (Hsym & Hl & Hb & Hk). repeat split.
  - apply connected_symmetric. exact Hsym.
  - apply connected_symmetric. exact Hsym.
  - unfold connected. simpl. now apply no_empty_put_append.
  - unfold connected. simpl. now apply no_empty_put_append.
  - intros k. unfold connected. simpl. rewrite JsObjectFacts.get_put.
    destruct (String.eqb_spec k (path s)) as [->|Hne]; [now left|].
    intros H. right. now apply Hk.
Qed.

Lemma rebuild_inv_graph done ws ws' :
  links ws' = links ws -> backlinks ws' = backlinks ws ->
  rebuild_inv done ws -> rebuild_inv done ws'.
Proof.
  unfold rebuild_inv, symmetric. intros -> ->. tauto.
Qed.

Lemma rebuild_inv_step done n l ws u ws' :
  bind (resolveLink n l) (fun t => connect (note_uri n) t l) ws = Ok (u, ws') ->
  rebuild_inv (path (note_uri n) :: done) ws ->
  rebuild_inv (path (note_uri n) :: done) ws'.
Proof.
  intros H Hinv. apply bind_ok in H. destruct H as (t & ws1 & Hres & Hc).
  rewrite (connect_ok _ _ _ _ _ _ Hc).
  destruct (resolveLink_effect _ _ _ _ _ Hres) as (Hl & Hb & _).
  assert (H1 : rebuild_inv (path (note_uri n) :: done) ws1)
    by (eapply rebuild_inv_graph; eauto).
  destruct (connected_rebuild_inv _ ws1 (note_uri n) t l H1)
    as (Hsym & Hle & Hbe & Hk).
  repeat split; auto; try apply Hsym.
  intros k Hg. destruct (Hk k Hg) as [<-|Hin]; [now left|exact Hin].
Qed.

(** Resolving a note whose path has no outgoing list yet. *)
Lemma resolveResource_rebuild_inv done n ws u ws' :
  resolveResource (RNote n) ws = Ok (u, ws') ->
  ~ In (path (note_uri n)) done ->
  rebuild_inv done ws ->
  rebuild_inv (path (note_uri n) :: done) ws'.
Proof.
  simpl. intros H Hnew Hinv.
  apply bind_ok in H. destruct H as ([] & ws0 & H0 & H).
  injection H0 as <-.
  eapply (reduceM_invariant (rebuild_inv (path (note_uri n) :: done)));
    [|exact H|].
  - intros l w v w' _. apply rebuild_inv_step.
  - assert (Habs : get (path (note_uri n)) (links ws) = None).
    { destruct Hinv as (_ & _ & _ & Hk).
      destruct (get (path (note_uri n)) (links ws)) eqn:Hg; [|reflexivity].
      exfalso. apply Hnew, Hk. congruence. }
    apply (rebuild_inv_graph _ ws).
    + simpl. now apply JsObjectFacts.del_absent.
    + reflexivity.
    + destruct Hinv as (Hsym & Hl & Hb & Hk). repeat split; auto.
      * apply Hsym.
      * apply Hsym.
      * intros k Hg. right. now apply Hk.
Qed.

Lemma reduce_resolveResource_rebuild_inv rs : forall done ws u ws',
  reduceM resolveResource rs ws = Ok (u, ws') ->
  NoDup (map (fun r => path (resource_uri r)) rs) ->
  (forall r, In r rs -> ~ In (path (resource_uri r)) done) ->
  rebuild_inv done ws ->
  exists done', rebuild_inv done' ws'.
Proof.
  induction rs as [|r rs IH]; intros done ws u ws' H Hnd Hfresh Hinv;
    simpl in H.
  - injection H as _ <-. now exists done.
  - apply bind_ok in H. destruct H as ([] & ws1 & H1 & H).
    inversion Hnd as [|p ps Hp Hnd']; subst.
    destruct r as [n|p].
    + apply (IH (path (note_uri n) :: done) ws1 u ws' H).
      * exact Hnd'.
      * intros r Hr [Heq|Hin].
        -- apply Hp.
           apply (in_map (fun r => path (resource_uri r))) in Hr.
           simpl in *. rewrite Heq. exact Hr.
        -- apply (Hfresh r); [now right|exact Hin].
      * eapply resolveResource_rebuild_inv; [exact H1| |exact Hinv].
        apply (Hfresh (RNote n)). now left.
    + injection H1 as <-. apply (IH done ws u ws' H); auto.
      intros r Hr. apply Hfresh. now right.
Qed.

(** A full rebuild that completes yields a symmetric graph without
    empty lists whenever the stored resources have pairwise different
    paths. *)
Lemma full_rebuild_symmetric ws keepMonitoring ws' :
  resolveLinks ws keepMonitoring = Ok ws' ->
  distinct_paths ws ->
  symmetric ws' /\ no_empty_entry (links ws') /\ no_empty_entry (backlinks ws').
Proof.
  intros H Hd. apply resolveLinks_ok in H. destruct H as (ws1 & H & ->).
  destruct (reduce_resolveResource_rebuild_inv _ [] _ _ _ H)
    as (done & Hsym & Hl & Hb & _).
  - exact Hd.
  - intros r _ [].
  - split; [|split; [|split]].
    + intros c. split; intros (c' & [] & _).
    + intros k. discriminate.
    + intros k. discriminate.
    + intros k H0. now contradiction H0.
  - destruct keepMonitoring; repeat split; auto; apply Hsym.
Qed.

End RebuildFacts.

(** ** Promotion

    The scenario of the promotion of a placeholder into a note. *)

(** C2: in incremental mode, adding [/a.md] (one reference to [b]) and
    then [/b.md] leaves the connection to the placeholder [b] in the
    incoming map although no equal connection is left in the outgoing
    map: the graph is not symmetric. *)
Theorem promotion_breaks_symmetry :
  incremental (E:=Posix.posix) [OpSet Scenario.noteA; OpSet Scenario.noteB]
  = Ok Scenario.wsPromoted
  /\ listed (backlinks Scenario.wsPromoted)
       (path (target Scenario.toPlaceholderB)) Scenario.toPlaceholderB
  /\ ~ listed (links Scenario.wsPromoted)
         (path (source Scenario.toPlaceholderB)) Scenario.toPlaceholderB
  /\ ~ symmetric Scenario.wsPromoted.
Proof.
  assert (Hin : listed (backlinks Scenario.wsPromoted)
                  (path (target Scenario.toPlaceholderB))
                  Scenario.toPlaceholderB).
  { exists Scenario.toPlaceholderB. split; [vm_compute; now left|reflexivity]. }
  assert (Hout : ~ listed (links Scenario.wsPromoted)
                     (path (source Scenario.toPlaceholderB))
                     Scenario.toPlaceholderB).
  { intros (c' & Hc & Hsame). vm_compute in Hc.
    destruct Hc as [<-|[]]. vm_compute in Hsame. discriminate Hsame. }
  split; [vm_compute; reflexivity|]. split; [exact Hin|]. split; [exact Hout|].
  intros Hsym. apply Hout. now apply (Hsym Scenario.toPlaceholderB).
Qed.

(** C1: for the same two operations the incremental graph differs from
    the graph of a fresh full rebuild on the final resources: the
    incoming map keeps an entry for the placeholder [b] that the rebuild
    does not have. *)
Theorem promotion_differs_from_rebuild :
  incremental (E:=Posix.posix) [OpSet Scenario.noteA; OpSet Scenario.noteB]
  = Ok Scenario.wsPromoted
  /\ getBacklinks Scenario.wsPromoted (placeholderUri "b")
     = ConnectionList [Scenario.toPlaceholderB]
  /\ full_rebuild (E:=Posix.posix) Scenario.wsPromoted = Ok Scenario.wsRebuilt
  /\ getBacklinks Scenario.wsRebuilt (placeholderUri "b") = ConnectionList []
  /\ ~ same_graph Scenario.wsPromoted Scenario.wsRebuilt.
Proof.
  split; [vm_compute; reflexivity|].
  split; [vm_compute; reflexivity|].
  split; [vm_compute; reflexivity|].
  split; [vm_compute; reflexivity|].
  intros (_ & Hb & _). specialize (Hb "b"). vm_compute in Hb. exact Hb.
Qed.

(** * Further properties of the workspace *)

(** ** Classifying a reference *)

Lemma startsWith_contains s : startsWith_slash s = true -> contains_slash s = true.
Proof.
  destruct s as [|c s]; simpl; [discriminate|]. intros ->. reflexivity.
Qed.

(** A string reference is a key exactly when it holds no separator, an
    absolute path exactly when it starts with one, and a relative path
    exactly when it holds one without starting with it; it is never
    classified as a uri, and a uri always is. *)
Theorem getReferenceType_classifies (s : string) (u : URI) :
  getReferenceType (RefUri u) = ref_uri
  /\ getReferenceType (RefStr s) <> ref_uri
  /\ (getReferenceType (RefStr s) = ref_key <-> contains_slash s = false)
  /\ (getReferenceType (RefStr s) = ref_absolute_path
      <-> startsWith_slash s = true)
  /\ (getReferenceType (RefStr s) = ref_relative_path
      <-> contains_slash s = true /\ startsWith_slash s = false).
Proof.
  split; [reflexivity|].
  pose proof (startsWith_contains s) as Hsc.
  unfold getReferenceType.
  destruct (contains_slash s); destruct (startsWith_slash s); simpl;
    repeat split; try discriminate; try tauto;
    try (intros [H1 H2]; discriminate).
  intros _. specialize (Hsc eq_refl). discriminate.
Qed.

(** ** Equality of connections *)

Lemma isSameUri_refl a : isSameUri a a = true.
Proof. unfold isSameUri. now rewrite !String.eqb_refl. Qed.

Lemma isSameUri_eq a b : isSameUri a b = true <-> a = b.
Proof.
  split; [|intros ->; apply isSameUri_refl].
  unfold isSameUri. intros H.
  repeat (apply andb_true_iff in H; destruct H as [H ?]).
  destruct a, b; simpl in *.
  repeat match goal with
         | H : String.eqb _ _ = true |- _ => apply String.eqb_eq in H
         end.
  congruence.
Qed.

Lemma isSamePosition_eq a b : isSamePosition a b = true <-> a = b.
Proof.
  unfold isSamePosition, isSamePoint.
  destruct a as [[l1 c1] [l2 c2]], b as [[l1' c1'] [l2' c2']]; simpl.
  rewrite !andb_true_iff, !Z.eqb_eq. split.
  - intros [[-> ->] [-> ->]]. reflexivity.
  - intros [= -> -> -> ->]. tauto.
Qed.

Lemma isSameLink_iff a b :
  isSameLink a b = true
  <-> link_type a = link_type b /\ link_position a = link_position b.
Proof.
  unfold isSameLink. rewrite andb_true_iff, isSamePosition_eq.
  assert (Ht : LinkType_eqb (link_type a) (link_type b) = true
               <-> link_type a = link_type b).
  { destruct (link_type a), (link_type b); simpl; split;
      congruence || reflexivity. }
  tauto.
Qed.

Lemma isSameConnection_iff a b :
  isSameConnection a b = true
  <-> source a = source b /\ target a = target b
      /\ link_type (link a) = link_type (link b)
      /\ link_position (link a) = link_position (link b).
Proof.
  unfold isSameConnection.
  rewrite !andb_true_iff, !isSameUri_eq, isSameLink_iff. tauto.
Qed.



(** ** The link graph primitives *)

Section GraphFacts.
Import JsObject.

Lemma length_zero_pruned (l : list Connection) :
  (if Nat.eqb (length l) 0 then None else Some l) = pruned l.
Proof. now destruct l. Qed.

(** What a completed [disconnect] leaves in the maps. *)
Lemma disconnect_lookup s t sel ws out inc :
  get (path s) (links ws) = Some out ->
  get (path t) (backlinks ws) = Some inc ->
  exists ws',
    disconnect s t sel ws = Ok (tt, ws')
    /\ (forall k, get k (links ws')
                  = if String.eqb k (path s)
                    then pruned (filter (connectionsToKeep s t sel) out)
                    else get k (links ws))
    /\ (forall k, get k (backlinks ws')
                  = if String.eqb k (path t)
                    then pruned (filter (connectionsToKeep s t sel) inc)
                    else get k (backlinks ws))
    /\ resources ws' = resources ws
    /\ resourcesByName ws' = resourcesByName ws
    /\ placeholders ws'
       = match filter (connectionsToKeep s t sel) inc with
         | [] => if isPlaceholder t
                 then del (path t) (placeholders ws)
                 else placeholders ws
         | _ => placeholders ws
         end.
Proof.
  intros Hs Ht. unfold disconnect.
  rewrite (proj2 (JsObjectFacts.read_Own _ _ _) Hs).
  set (out' := filter (connectionsToKeep s t sel) out).
  set (inc' := filter (connectionsToKeep s t sel) inc).
  assert (Hlinks : forall k,
             get k (if Nat.eqb (length out') 0
                    then del (path s) (put (path s) out' (links ws))
                    else put (path s) out' (links ws))
             = if String.eqb k (path s) then pruned out' else get k (links ws)).
  { intros k. destruct out' as [|c0 out']; simpl.
    - rewrite JsObjectFacts.get_del, JsObjectFacts.get_put.
      now destruct (String.eqb k (path s)).
    - now rewrite JsObjectFacts.get_put. }
  assert (Hback : forall k,
             get k (if Nat.eqb (length inc') 0
                    then del (path t) (put (path t) inc' (backlinks ws))
                    else put (path t) inc' (backlinks ws))
             = if String.eqb k (path t) then pruned inc' else get k (backlinks ws)).
  { intros k. destruct inc' as [|c0 inc']; simpl.
    - rewrite JsObjectFacts.get_del, JsObjectFacts.get_put.
      now destruct (String.eqb k (path t)).
    - now rewrite JsObjectFacts.get_put. }
  destruct (Nat.eqb (length out') 0) eqn:Hout; simpl;
    rewrite (proj2 (JsObjectFacts.read_Own _ _ _) Ht); fold inc';
    destruct (Nat.eqb (length inc') 0) eqn:Hinc; simpl;
    try destruct (isPlaceholder t) eqn:Hp;
    eexists; (split; [reflexivity|]); simpl;
    (split; [exact Hlinks|]); (split; [exact Hback|]);
    (split; [reflexivity|]); (split; [reflexivity|]);
    destruct inc'; simpl in Hinc; try discriminate; try rewrite Hp;
    reflexivity.
Qed.

Lemma or_empty_pruned (l : list Connection) : or_empty (pruned l) = l.
Proof. now destruct l. Qed.

(** The getters on a path that names no member of [Object.prototype],
    and on a path with a list of its own. *)
Lemma getLinks_own ws u cs :
  get (path u) (links ws) = Some cs -> getLinks ws u = ConnectionList cs.
Proof.
  intros H. unfold getLinks. now rewrite (proj2 (JsObjectFacts.read_Own _ _ _) H).
Qed.

Lemma getBacklinks_own ws u cs :
  get (path u) (backlinks ws) = Some cs -> getBacklinks ws u = ConnectionList cs.
Proof.
  intros H. unfold getBacklinks.
  now rewrite (proj2 (JsObjectFacts.read_Own _ _ _) H).
Qed.

Lemma list_or_member_array (v : Value (list Connection)) cs :
  array_or_empty v = Some cs -> list_or_member v = ConnectionList cs.
Proof. destruct v; simpl; congruence. Qed.

Lemma read_put_ne {V : Type} (o : t V) k k' v :
  k' <> k -> read k' (put k v o) = read k' o.
Proof. intros H. unfold read. now rewrite JsObjectFacts.get_put_ne. Qed.

(** A [connect] that completes has appended the same new connection to
    the outgoing list of the source and to the incoming list of the
    target, so the queries return it last; every other list and the
    resource index are untouched. *)
Theorem connect_appends (ws ws' : FoamWorkspace) (s t : URI) (l : NoteLink) :
  connect s t l ws = Ok (tt, ws') ->
  (exists out inc,
     getLinks ws s = ConnectionList out
     /\ getBacklinks ws t = ConnectionList inc
     /\ getLinks ws' s = ConnectionList (out ++ [connection_of s t l])
     /\ getBacklinks ws' t = ConnectionList (inc ++ [connection_of s t l]))
  /\ In (connection_of s t l) (getAllConnections ws')
  /\ (forall u, path u <> path s -> getLinks ws' u = getLinks ws u)
  /\ (forall u, path u <> path t -> getBacklinks ws' u = getBacklinks ws u)
  /\ resources ws' = resources ws /\ placeholders ws' = placeholders ws
  /\ resourcesByName ws' = resourcesByName ws.
Proof.
  intros Hc.
  destruct (connect_outcome s t l ws) as [(_ & Hs & Ht)|(Hr & _)];
    [|congruence].
  rewrite (connect_ok _ _ _ _ _ _ Hc).
  destruct (array_or_empty (read (path s) (links ws))) as [out|] eqn:Hout;
    [|now contradiction Hs].
  destruct (array_or_empty (read (path t) (backlinks ws))) as [inc|] eqn:Hinc;
    [|now contradiction Ht].
  pose proof (array_or_empty_get _ _ _ Hout) as Eout.
  pose proof (array_or_empty_get _ _ _ Hinc) as Einc.
  split; [|split; [|split; [|split]]].
  - exists out, inc. unfold connection_of.
    split; [now apply list_or_member_array|].
    split; [now apply list_or_member_array|].
    split.
    + apply getLinks_own. unfold connected. simpl.
      rewrite Eout. apply JsObjectFacts.get_put_eq.
    + apply getBacklinks_own. unfold connected. simpl.
      rewrite Einc. apply JsObjectFacts.get_put_eq.
  - unfold getAllConnections, connected, connection_of. simpl.
    apply in_concat. eexists. split.
    + eapply JsObjectFacts.get_Some_In. apply JsObjectFacts.get_put_eq.
    + apply in_or_app. right. now left.
  - intros u Hu. unfold getLinks, connected. simpl. now rewrite read_put_ne.
  - intros u Hu. unfold getBacklinks, connected. simpl. now rewrite read_put_ne.
  - unfold connected. simpl. auto.
Qed.

Lemma connect_appends_witness :
  exists ws',
    connect (Posix.file "/a.md") (Posix.file "/b.md")
      (WikiLink "b" Scenario.at1) Scenario.wsA = Ok (tt, ws')
    /\ In (connection_of (Posix.file "/a.md") (Posix.file "/b.md")
             (WikiLink "b" Scenario.at1)) (getAllConnections ws').
Proof.
  destruct (connect (Posix.file "/a.md") (Posix.file "/b.md")
              (WikiLink "b" Scenario.at1) Scenario.wsA)
    as [[[] ws']|e] eqn:Hc; [|vm_compute in Hc; discriminate Hc].
  exists ws'. split; [reflexivity|].
  exact (proj1 (proj2 (connect_appends Scenario.wsA ws' _ _ _ Hc))).
Defined.

(** [connect] completes exactly when neither the outgoing list of the
    source nor the incoming list of the target is read from the
    prototype (a path such as [constructor]); otherwise it raises a
    [TypeError], and it raises nothing else. *)
Theorem connect_completes_iff (s t : URI) (l : NoteLink) (ws : FoamWorkspace) :
  ((exists ws', connect s t l ws = Ok (tt, ws'))
   <-> (forall m, read (path s) (links ws) <> Inherited m)
       /\ (forall m, read (path t) (backlinks ws) <> Inherited m))
  /\ (connect s t l ws = Raise TypeError
      <-> (exists m, read (path s) (links ws) = Inherited m)
          \/ (exists m, read (path t) (backlinks ws) = Inherited m))
  /\ (forall e, connect s t l ws = Raise e -> e = TypeError).
Proof.
  assert (Harr : forall (v : Value (list Connection)),
             (array_or_empty v = None <-> exists m, v = Inherited m)).
  { intros [x|m|]; simpl; split; try discriminate.
    - intros [m H]; discriminate.
    - intros _. now exists m.
    - reflexivity.
    - intros [m H]; discriminate. }
  destruct (connect_outcome s t l ws) as [(Hc & Hs & Ht)|(Hc & Hst)];
    rewrite Hc.
  - split; [|split].
    + split; [|intros _; eauto]. intros _.
      split; intros m Hm; [apply Hs|apply Ht]; apply Harr; eauto.
    + split; [discriminate|].
      intros [H|H]; apply Harr in H; contradiction.
    + discriminate.
  - split; [|split].
    + split; [intros [ws' H]; discriminate|].
      intros [Hs Ht]. exfalso.
      destruct Hst as [H|H]; apply Harr in H; destruct H as [m H];
        [apply (Hs m H)|apply (Ht m H)].
    + split; [|reflexivity]. intros _.
      destruct Hst as [H|H]; apply Harr in H; auto.
    + now intros e [= <-].
Qed.

Lemma disconnect_outcome (s t : URI) (sel : LinkSelector)
    (ws : FoamWorkspace) :
  ((exists ws', disconnect s t sel ws = Ok (tt, ws'))
   <-> get (path s) (links ws) <> None /\ get (path t) (backlinks ws) <> None)
  /\ (disconnect s t sel ws = Raise TypeError
      <-> get (path s) (links ws) = None \/ get (path t) (backlinks ws) = None)
  /\ (forall e, disconnect s t sel ws = Raise e -> e = TypeError).
Proof.
  destruct (get (path s) (links ws)) as [out|] eqn:Hs.
  - destruct (get (path t) (backlinks ws)) as [inc|] eqn:Ht.
    + destruct (disconnect_lookup s t sel ws out inc Hs Ht) as (ws' & Hd & _).
      rewrite Hd. split; [|split].
      * split; [intros _; split; discriminate|intros _; now exists ws'].
      * split; [discriminate|intros [H|H]; discriminate].
      * intros e H. discriminate.
    + assert (Hd : disconnect s t sel ws = Raise TypeError).
      { unfold disconnect.
        rewrite (proj2 (JsObjectFacts.read_Own _ _ _) Hs).
        assert (Hr : forall w, backlinks w = backlinks ws ->
                       match read (path t) (backlinks w) with
                       | Own _ => False
                       | _ => True
                       end).
        { intros w ->. unfold read. rewrite Ht.
          now destruct (prototype (path t)). }
        destruct (Nat.eqb _ 0); simpl;
          match goal with
          | |- context [read (path t) (backlinks ?w)] =>
              specialize (Hr w eq_refl);
                destruct (read (path t) (backlinks w)); [destruct Hr| |]
          end; reflexivity. }
      rewrite Hd. split; [|split].
      * split; [intros [ws' H]; discriminate|intros [_ H]; now contradiction H].
      * split; [now right|reflexivity].
      * intros e [= <-]. reflexivity.
  - rewrite (disconnect_no_list s t sel ws Hs). split; [|split].
    + split; [intros [ws' H]; discriminate|intros [H _]; now contradiction H].
    + split; [now left|reflexivity].
    + intros e [= <-]. reflexivity.
Qed.

(** [disconnect] completes exactly when the source has an outgoing list
    and the target an incoming list; otherwise it raises a [TypeError],
    and it raises nothing else. *)
Theorem disconnect_completes_iff (s t : URI) (sel : LinkSelector)
    (ws : FoamWorkspace) :
  ((exists ws', disconnect s t sel ws = Ok (tt, ws'))
   <-> get (path s) (links ws) <> None /\ get (path t) (backlinks ws) <> None)
  /\ (disconnect s t sel ws = Raise TypeError
      <-> get (path s) (links ws) = None \/ get (path t) (backlinks ws) = None)
  /\ (forall e, disconnect s t sel ws = Raise e -> e = TypeError).
Proof. exact (disconnect_outcome s t sel ws). Qed.

(** A completed [disconnect] has filtered the outgoing list of the
    source and the incoming list of the target with the same predicate,
    dropping a list that became empty, and has left every other list
    and the resource index alone.  The queries return the filtered
    lists, unless the list was dropped and the path names an inherited
    member. *)
Theorem disconnect_filters (s t : URI) (sel : LinkSelector)
    (ws ws' : FoamWorkspace) :
  disconnect s t sel ws = Ok (tt, ws') ->
  exists out inc,
    getLinks ws s = ConnectionList out
    /\ getBacklinks ws t = ConnectionList inc
    /\ get (path s) (links ws')
       = pruned (filter (connectionsToKeep s t sel) out)
    /\ get (path t) (backlinks ws')
       = pruned (filter (connectionsToKeep s t sel) inc)
    /\ (filter (connectionsToKeep s t sel) out <> []
        \/ prototype (path s) = None ->
        getLinks ws' s = ConnectionList (filter (connectionsToKeep s t sel) out))
    /\ (filter (connectionsToKeep s t sel) inc <> []
        \/ prototype (path t) = None ->
        getBacklinks ws' t
        = ConnectionList (filter (connectionsToKeep s t sel) inc))
    /\ (forall k, k <> path s -> get k (links ws') = get k (links ws))
    /\ (forall k, k <> path t -> get k (backlinks ws') = get k (backlinks ws))
    /\ resources ws' = resources ws
    /\ resourcesByName ws' = resourcesByName ws.
Proof.
  intros Hd.
  destruct (proj1 (proj1 (disconnect_outcome s t sel ws))
              (ex_intro _ ws' Hd)) as [Hs Ht].
  destruct (get (path s) (links ws)) as [out|] eqn:Hs'; [|now contradiction Hs].
  destruct (get (path t) (backlinks ws)) as [inc|] eqn:Ht'; [|now contradiction Ht].
  destruct (disconnect_lookup s t sel ws out inc Hs' Ht')
    as (ws1 & Hd1 & Hl & Hb & Hr & Hn & _).
  rewrite Hd in Hd1. injection Hd1 as <-.
  assert (Hq : forall (m : JsObject.t (list Connection)) k cs,
             get k m = pruned cs ->
             cs <> [] \/ prototype k = None ->
             list_or_member (read k m) = ConnectionList cs).
  { intros m k cs Hg Hc. unfold read. rewrite Hg.
    destruct cs as [|c cs]; simpl; [|reflexivity].
    destruct Hc as [Hc|Hc]; [now contradiction Hc|]. now rewrite Hc. }
  pose proof (Hl (path s)) as Hls. rewrite String.eqb_refl in Hls.
  pose proof (Hb (path t)) as Hbt. rewrite String.eqb_refl in Hbt.
  exists out, inc.
  split; [now apply getLinks_own|]. split; [now apply getBacklinks_own|].
  split; [exact Hls|]. split; [exact Hbt|].
  split; [intros Hc; now apply Hq|]. split; [intros Hc; now apply Hq|].
  repeat split; auto.
  - intros k Hk. rewrite Hl. now destruct (String.eqb_spec k (path s)).
  - intros k Hk. rewrite Hb. now destruct (String.eqb_spec k (path t)).
Qed.

Lemma disconnect_filters_witness :
  exists ws',
    disconnect (Posix.file "/a.md") (placeholderUri "b")
      (OneLink (WikiLink "b" Scenario.at0)) Scenario.wsA = Ok (tt, ws')
    /\ get "/a.md" (links ws') = None
    /\ get "b" (backlinks ws') = None.
Proof.
  destruct (disconnect (Posix.file "/a.md") (placeholderUri "b")
              (OneLink (WikiLink "b" Scenario.at0)) Scenario.wsA)
    as [[[] ws']|e] eqn:Hd; [|vm_compute in Hd; discriminate Hd].
  exists ws'. split; [reflexivity|].
  destruct (disconnect_filters _ _ _ _ _ Hd)
    as (out & inc & Ho & Hi & Hl & Hb & _).
  assert (Eo : out = [Scenario.toPlaceholderB]).
  { vm_compute in Ho. now injection Ho as <-. }
  assert (Ei : inc = [Scenario.toPlaceholderB]).
  { vm_compute in Hi. now injection Hi as <-. }
  subst out inc. split; [exact Hl|exact Hb].
Defined.

(** Undoing a connection that [connect] has just made always completes,
    and no connection equal to it is left on either side.  When the
    source had no outgoing list and the target no incoming list before,
    both maps answer every lookup as they did before the [connect]. *)
Theorem disconnect_after_connect (ws ws1 : FoamWorkspace) (s t : URI)
    (l : NoteLink) :
  connect s t l ws = Ok (tt, ws1) ->
  exists ws',
    disconnect s t (OneLink l) ws1 = Ok (tt, ws')
    /\ ~ listed (links ws') (path s) (connection_of s t l)
    /\ ~ listed (backlinks ws') (path t) (connection_of s t l)
    /\ (get (path s) (links ws) = None ->
        get (path t) (backlinks ws) = None ->
        (forall k, get k (links ws') = get k (links ws))
        /\ (forall k, get k (backlinks ws') = get k (backlinks ws))).
Proof.
  intros Hc. rewrite (connect_ok _ _ _ _ _ _ Hc).
  destruct (disconnect_lookup s t (OneLink l) (connected ws s t l)
              (or_empty (get (path s) (links ws)) ++ [connection_of s t l])
              (or_empty (get (path t) (backlinks ws)) ++ [connection_of s t l]))
    as (ws' & Hd & Hl & Hb & _).
  { unfold connected. simpl. apply JsObjectFacts.get_put_eq. }
  { unfold connected. simpl. apply JsObjectFacts.get_put_eq. }
  assert (Hkeep : connectionsToKeep s t (OneLink l) (connection_of s t l) = false).
  { unfold connectionsToKeep, connection_of.
    assert (Hrefl : isSameConnection (mkConnection s t l) (mkConnection s t l)
                    = true) by (apply isSameConnection_iff; tauto).
    now rewrite Hrefl. }
  assert (Hgone : forall cs,
             ~ exists c', In c' (or_empty (pruned
                                   (filter (connectionsToKeep s t (OneLink l)) cs)))
                          /\ isSameConnection (connection_of s t l) c' = true).
  { intros cs (c' & Hin & Hsame). rewrite or_empty_pruned in Hin.
    apply filter_In in Hin. destruct Hin as [_ Hk].
    unfold connectionsToKeep in Hk. destruct c' as [cs' ct' cl'].
    unfold connection_of in Hsame. rewrite Hsame in Hk. discriminate Hk. }
  exists ws'. split; [exact Hd|]. split; [|split].
  - unfold listed. rewrite Hl, String.eqb_refl. apply Hgone.
  - unfold listed. rewrite Hb, String.eqb_refl. apply Hgone.
  - intros Hs Ht. rewrite Hs, Ht in *. simpl in *. rewrite Hkeep in *.
    split; intros k.
    + rewrite Hl. destruct (String.eqb_spec k (path s)) as [->|Hne].
      * simpl. now rewrite Hs.
      * unfold connected. simpl. now rewrite JsObjectFacts.get_put_ne.
    + rewrite Hb. destruct (String.eqb_spec k (path t)) as [->|Hne].
      * simpl. now rewrite Ht.
      * unfold connected. simpl. now rewrite JsObjectFacts.get_put_ne.
Qed.

Lemma disconnect_after_connect_witness :
  exists ws1 ws',
    connect (Posix.file "/b.md") (Posix.file "/a.md")
      (WikiLink "a" Scenario.at1) Scenario.wsA = Ok (tt, ws1)
    /\ disconnect (Posix.file "/b.md") (Posix.file "/a.md")
         (OneLink (WikiLink "a" Scenario.at1)) ws1 = Ok (tt, ws')
    /\ forall k, get k (links ws') = get k (links Scenario.wsA).
Proof.
  destruct (connect (Posix.file "/b.md") (Posix.file "/a.md")
              (WikiLink "a" Scenario.at1) Scenario.wsA)
    as [[[] ws1]|e] eqn:Hc; [|vm_compute in Hc; discriminate Hc].
  destruct (disconnect_after_connect Scenario.wsA ws1 (Posix.file "/b.md")
              (Posix.file "/a.md") (WikiLink "a" Scenario.at1) Hc)
    as (ws' & Hd & _ & _ & Hsame).
  exists ws1, ws'. split; [reflexivity|]. split; [exact Hd|].
  apply Hsame; reflexivity.
Defined.

(** A [connect] or a [disconnect] that completes never leaves an empty
    list in either map. *)
Theorem graph_primitives_leave_no_empty_list (ws : FoamWorkspace) (s t : URI) :
  no_empty_entry (links ws) -> no_empty_entry (backlinks ws) ->
  (forall l ws',
     connect s t l ws = Ok (tt, ws') ->
     no_empty_entry (links ws') /\ no_empty_entry (backlinks ws'))
  /\ (forall sel ws',
        disconnect s t sel ws = Ok (tt, ws') ->
        no_empty_entry (links ws') /\ no_empty_entry (backlinks ws')).
Proof.
  intros Hl Hb. split.
  - intros l ws' Hc. rewrite (connect_ok _ _ _ _ _ _ Hc).
    unfold connected. simpl. split; intros k;
      rewrite JsObjectFacts.get_put.
    + destruct (String.eqb k (path s)); [|apply Hl].
      intros [= H]. now destruct (or_empty (get (path s) (links ws))).
    + destruct (String.eqb k (path t)); [|apply Hb].
      intros [= H]. now destruct (or_empty (get (path t) (backlinks ws))).
  - intros sel ws' Hd.
    destruct (proj1 (proj1 (disconnect_outcome s t sel ws))
                (ex_intro _ ws' Hd)) as [Hs Ht].
    destruct (get (path s) (links ws)) as [out|] eqn:Hs'; [|now contradiction Hs].
    destruct (get (path t) (backlinks ws)) as [inc|] eqn:Ht'; [|now contradiction Ht].
    destruct (disconnect_lookup s t sel ws out inc Hs' Ht')
      as (ws1 & Hd1 & Hl1 & Hb1 & _).
    rewrite Hd in Hd1. injection Hd1 as <-.
    split; intros k.
    + rewrite Hl1. destruct (String.eqb k (path s)); [|apply Hl].
      now destruct (filter _ out).
    + rewrite Hb1. destruct (String.eqb k (path t)); [|apply Hb].
      now destruct (filter _ inc).
Qed.

Lemma graph_primitives_leave_no_empty_list_witness :
  exists ws',
    connect (Posix.file "/a.md") (Posix.file "/b.md")
      (WikiLink "b" Scenario.at0) new_workspace = Ok (tt, ws')
    /\ no_empty_entry (links ws').
Proof.
  assert (H0 : forall k, JsObject.get k (@JsObject.empty (list Connection))
                         <> Some []) by (intros k; discriminate).
  destruct (connect (Posix.file "/a.md") (Posix.file "/b.md")
              (WikiLink "b" Scenario.at0) new_workspace)
    as [[[] ws']|e] eqn:Hc; [|vm_compute in Hc; discriminate Hc].
  exists ws'. split; [reflexivity|].
  exact (proj1 (proj1 (graph_primitives_leave_no_empty_list new_workspace
                         (Posix.file "/a.md") (Posix.file "/b.md") H0 H0)
                  (WikiLink "b" Scenario.at0) ws' Hc)).
Defined.

(** [getConnections] gives the outgoing list followed by the incoming
    list when [getLinks] and [getBacklinks] both give lists; it raises a
    [TypeError] exactly when one of them gives an inherited member.  On
    a path that names no such member the three queries give the stored
    lists, empty when none is stored, and every stored outgoing
    connection is among [getAllConnections]. *)
Theorem getConnections_concatenates (ws : FoamWorkspace) (uri : URI) :
  (forall out inc,
     getLinks ws uri = ConnectionList out ->
     getBacklinks ws uri = ConnectionList inc ->
     getConnections ws uri = Ok (out ++ inc))
  /\ (getConnections ws uri = Raise TypeError
      <-> (exists m, getLinks ws uri = ConnectionsMember m)
          \/ (exists m, getBacklinks ws uri = ConnectionsMember m))
  /\ (prototype (path uri) = None ->
      getLinks ws uri = ConnectionList (outgoing ws uri)
      /\ getBacklinks ws uri = ConnectionList (incoming ws uri)
      /\ getConnections ws uri = Ok (outgoing ws uri ++ incoming ws uri))
  /\ (forall c, In c (outgoing ws uri) -> In c (getAllConnections ws)).
Proof.
  unfold getLinks, getBacklinks, getConnections, outgoing, incoming.
  split; [|split; [|split]].
  - intros out inc.
    destruct (read (path uri) (links ws)) as [o|m|];
      destruct (read (path uri) (backlinks ws)) as [i|m'|]; simpl;
      try discriminate; intros [= <-] [= <-]; reflexivity.
  - destruct (read (path uri) (links ws)) as [o|m|];
      destruct (read (path uri) (backlinks ws)) as [i|m'|]; simpl;
      split; try discriminate; try solve [intros _; eauto];
      try solve [intros [[m0 H]|[m0 H]]; discriminate].
  - intros Hp. rewrite !(JsObjectFacts.read_plain _ _ Hp).
    destruct (get (path uri) (links ws));
      destruct (get (path uri) (backlinks ws)); simpl; auto.
  - intros c Hin. unfold getAllConnections. apply in_concat.
    destruct (get (path uri) (links ws)) as [cs|] eqn:Hg; [|destruct Hin].
    exists cs. split; [|exact Hin].
    eapply JsObjectFacts.get_Some_In; eauto.
Qed.

End GraphFacts.

Lemma connect_completes_iff_witness :
  connect (Posix.file "/a.md") (placeholderUri "constructor")
    (WikiLink "constructor" Scenario.at0) new_workspace = Raise TypeError.
Proof.
  apply (proj2 (proj1 (proj2 (connect_completes_iff (Posix.file "/a.md")
                                (placeholderUri "constructor")
                                (WikiLink "constructor" Scenario.at0)
                                new_workspace)))).
  right. eexists. reflexivity.
Defined.


Lemma getConnections_concatenates_witness :
  getConnections Scenario.wsPromoted (Posix.file "/a.md")
  = Ok (outgoing Scenario.wsPromoted (Posix.file "/a.md")
        ++ incoming Scenario.wsPromoted (Posix.file "/a.md"))
  /\ getConnections Scenario.wsPromoted (placeholderUri "constructor")
     = Raise TypeError.
Proof.
  split.
  - apply (proj1 (proj2 (proj2 (getConnections_concatenates
                                  Scenario.wsPromoted (Posix.file "/a.md"))))).
    reflexivity.
  - apply (proj2 (proj1 (proj2 (getConnections_concatenates
                                  Scenario.wsPromoted
                                  (placeholderUri "constructor"))))).
    left. eexists. reflexivity.
Defined.
(** ** The resource index: [set], [get], [delete] *)

Section IndexFacts.
Context {E : Externals}.

(** What a completed [set] of a note has done to the index, and the
    workspace in which it fired its event. *)
Lemma set_note_ok n ws v ws' :
  set (RNote n) ws = Ok (v, ws') ->
  let id := uriToResourceId (note_uri n) in
  let name := uriToResourceName (note_uri n) in
  exists ev,
    fire ev
      (set_resourcesByName
         (set_resources ws (JsObject.put id (RNote n) (resources ws)))
         (JsObject.put name
            (or_empty (JsObject.get name (resourcesByName ws)) ++ [id])
            (resourcesByName ws))) = Ok (tt, ws')
    /\ v = ReturnedWorkspace.
Proof.
  intros H. rewrite set_note_steps in H. cbv zeta in H.
  destruct (push_at _ _ _) as [byName|] eqn:Hp; [|discriminate].
  apply push_at_Some in Hp. simpl in Hp. subst byName.
  match type of H with
  | match fire ?ev ?w with _ => _ end = _ =>
      destruct (fire ev w) as [[[] ws5]|e] eqn:Hf; [|discriminate];
        exists ev
  end.
  injection H as <- <-. now split.
Qed.

(** A completed [set] of a note has stored it under its id and changed
    no other resource. *)
Lemma set_note_resources n ws v ws' :
  set (RNote n) ws = Ok (v, ws') ->
  resources ws' = JsObject.put (uriToResourceId (note_uri n)) (RNote n) (resources ws).
Proof.
  intros H. destruct (set_note_ok n ws v ws' H) as (ev & Hf & _).
  apply fire_trace in Hf. destruct Hf as [Hr _]. rewrite Hr. reflexivity.
Qed.

(** What the index part of [delete] does when it completes. *)
Lemma delete_index_ok uri ws d ws1 :
  delete_index uri ws = Ok (d, ws1) ->
  d = JsObject.get (uriToResourceId uri) (resources ws)
  /\ resources ws1 = JsObject.del (uriToResourceId uri) (resources ws)
  /\ emitted ws1 = emitted ws /\ monitors ws1 = monitors ws
  /\ exists ids,
       JsObject.get (uriToResourceName uri) (resourcesByName ws) = Some ids
       /\ forall k,
            JsObject.get k (resourcesByName ws1)
            = if String.eqb k (uriToResourceName uri)
              then match filter (fun resId =>
                                   negb (String.eqb resId (uriToResourceId uri)))
                           ids with
                   | [] => None
                   | ids' => Some ids'
                   end
              else JsObject.get k (resourcesByName ws).
Proof.
  unfold delete_index. simpl.
  destruct (JsObject.read (uriToResourceName uri) (resourcesByName ws))
    as [ids| |] eqn:Hn; try discriminate.
  apply JsObjectFacts.read_Own in Hn.
  remember (filter _ ids) as kept eqn:Hkept.
  destruct kept as [|i kept]; simpl; intros [= <- <-]; simpl;
    repeat split; auto; exists ids; (split; [exact Hn|]); intros k.
  - rewrite JsObjectFacts.get_del, JsObjectFacts.get_put, <- Hkept.
    now destruct (String.eqb k (uriToResourceName uri)).
  - now rewrite JsObjectFacts.get_put, <- Hkept.
Qed.

(** Round trip: once [set] of a note has completed, [get] with any
    non-placeholder uri of the same normalized id returns that note and
    leaves the workspace as it is; [exists] answers [true] and [list]
    holds the note. *)
Theorem set_then_get (ws ws' : FoamWorkspace) (n : Note) (v : Returned)
    (uri : URI) :
  set (RNote n) ws = Ok (v, ws') ->
  isPlaceholder uri = false ->
  uriToResourceId uri = uriToResourceId (note_uri n) ->
  get uri ws' = Ok (RNote n, ws')
  /\ exists_ ws' uri = true
  /\ In (RNote n) (list_ ws').
Proof.
  intros Hset Hp Hid.
  assert (Hg : JsObject.get (uriToResourceId uri) (resources ws') = Some (RNote n)).
  { rewrite (set_note_resources n ws v ws' Hset), Hid.
    apply JsObjectFacts.get_put_eq. }
  split; [|split].
  - unfold get. rewrite (find_uri_plain ws' uri Hp), Hg. reflexivity.
  - unfold exists_. now rewrite Hg.
  - unfold list_. apply in_or_app. left.
    eapply JsObjectFacts.get_Some_In; eauto.
Qed.

Lemma delete_effect (ws ws' : FoamWorkspace) (uri : URI) (v : Returned) :
  delete uri ws = Ok (v, ws') ->
  resources ws' = JsObject.del (uriToResourceId uri) (resources ws)
  /\ exists_ ws' uri = false
  /\ (isPlaceholder uri = false ->
      get uri ws' = Raise (ResourceNotFound (path uri)))
  /\ v = match JsObject.get (uriToResourceId uri) (resources ws) with
         | Some d => ReturnedResource d
         | None => ReturnedNull
         end
  /\ emitted ws'
     = emitted ws
       ++ match JsObject.get (uriToResourceId uri) (resources ws) with
          | Some d => [Deleted d]
          | None => []
          end.
Proof.
  intros H. unfold delete, bind in H.
  destruct (delete_index uri ws) as [[d ws1]|e] eqn:Hdi; [|discriminate].
  destruct (delete_index_ok uri ws d ws1 Hdi) as (Hd & Hr & He & _).
  assert (Hfin : resources ws' = resources ws1
                 /\ v = match d with
                        | Some r => ReturnedResource r
                        | None => ReturnedNull
                        end
                 /\ emitted ws'
                    = emitted ws1
                      ++ match d with Some r => [Deleted r] | None => [] end).
  { destruct d as [r|].
    - destruct (fire (Deleted r) ws1) as [[u ws2]|e] eqn:Hf; [|discriminate].
      injection H as <- <-. apply fire_trace in Hf. tauto.
    - injection H as <- <-. rewrite app_nil_r. tauto. }
  destruct Hfin as (Hr' & Hv & He').
  assert (Hg : JsObject.get (uriToResourceId uri) (resources ws') = None).
  { rewrite Hr', Hr. apply JsObjectFacts.get_del_eq. }
  split; [congruence|]. split; [|split; [|split]].
  - unfold exists_. now rewrite Hg.
  - intros Hp. unfold get. rewrite (find_uri_plain ws' uri Hp), Hg. reflexivity.
  - now rewrite Hv, Hd.
  - now rewrite He', He, Hd.
Qed.

(** A completed [delete] has removed the id from the resources: it
    returns what was stored there ([null] when nothing was), [exists]
    answers [false], [get] raises NotFound, and [Deleted] is the one
    event fired, only when something was stored. *)
Theorem delete_removes (ws ws' : FoamWorkspace) (uri : URI) (v : Returned) :
  delete uri ws = Ok (v, ws') ->
  resources ws' = JsObject.del (uriToResourceId uri) (resources ws)
  /\ exists_ ws' uri = false
  /\ (isPlaceholder uri = false ->
      get uri ws' = Raise (ResourceNotFound (path uri)))
  /\ v = match JsObject.get (uriToResourceId uri) (resources ws) with
         | Some d => ReturnedResource d
         | None => ReturnedNull
         end
  /\ emitted ws'
     = emitted ws
       ++ match JsObject.get (uriToResourceId uri) (resources ws) with
          | Some d => [Deleted d]
          | None => []
          end.
Proof. exact (delete_effect ws ws' uri v). Qed.

Lemma delete_outcome (ws : FoamWorkspace) (uri : URI) :
  monitors ws = 0 ->
  ((exists v ws', delete uri ws = Ok (v, ws'))
   <-> JsObject.get (uriToResourceName uri) (resourcesByName ws) <> None)
  /\ (delete uri ws = Raise TypeError
      <-> JsObject.get (uriToResourceName uri) (resourcesByName ws) = None).
Proof.
  intros Hm.
  destruct (JsObject.get (uriToResourceName uri) (resourcesByName ws))
    as [ids|] eqn:Hn.
  - assert (Hok : exists v ws', delete uri ws = Ok (v, ws')).
    { unfold delete, bind.
      destruct (delete_index uri ws) as [[d ws1]|e] eqn:Hdi.
      - destruct (delete_index_ok uri ws d ws1 Hdi) as (_ & _ & _ & Hm1 & _).
        destruct d as [r|]; [|unfold ret; eauto].
        unfold bind. rewrite fire_unmonitored by congruence.
        unfold ret. eauto.
      - unfold delete_index in Hdi. simpl in Hdi.
        rewrite (proj2 (JsObjectFacts.read_Own _ _ _) Hn) in Hdi.
        destruct (Nat.eqb _ 0); discriminate Hdi. }
    split.
    + split; [intros _; discriminate|intros _; exact Hok].
    + split; [|discriminate]. destruct Hok as (v & ws' & ->). discriminate.
  - rewrite (delete_unknown_name uri ws Hn). split.
    + split; [intros (v & ws' & H); discriminate|intros H; now contradiction H].
    + split; reflexivity.
Qed.

(** With no listener registered, [delete] completes exactly when the
    name index has a list for the basename of the uri, whether or not
    anything is stored under the id; otherwise it raises a
    [TypeError]. *)
Theorem delete_completes_iff (ws : FoamWorkspace) (uri : URI) :
  monitors ws = 0 ->
  ((exists v ws', delete uri ws = Ok (v, ws'))
   <-> JsObject.get (uriToResourceName uri) (resourcesByName ws) <> None)
  /\ (delete uri ws = Raise TypeError
      <-> JsObject.get (uriToResourceName uri) (resourcesByName ws) = None).
Proof. exact (delete_outcome ws uri). Qed.

End IndexFacts.

Lemma set_then_get_witness :
  exists ws',
    set (E:=Posix.posix) Scenario.noteB Scenario.wsA = Ok (ReturnedWorkspace, ws')
    /\ get (E:=Posix.posix) Scenario.uriB_bare ws' = Ok (Scenario.noteB, ws').
Proof.
  destruct (set (E:=Posix.posix) Scenario.noteB Scenario.wsA)
    as [[v ws']|e] eqn:Hs; [|vm_compute in Hs; discriminate Hs].
  assert (Hv : v = ReturnedWorkspace).
  { vm_compute in Hs. now injection Hs as <- _. }
  subst v. exists ws'. split; [reflexivity|].
  apply (proj1 (set_then_get (E:=Posix.posix) Scenario.wsA ws'
                  (mkNote (Posix.file "/b.md") [] []) ReturnedWorkspace
                  Scenario.uriB_bare Hs eq_refl eq_refl)).
Defined.

Lemma delete_removes_witness :
  exists ws',
    delete (E:=Posix.posix) (Posix.file "/b.md") Scenario.wsB
    = Ok (ReturnedResource Scenario.noteB, ws')
    /\ exists_ (E:=Posix.posix) ws' (Posix.file "/b.md") = false
    /\ emitted ws' = emitted Scenario.wsB ++ [Deleted Scenario.noteB].
Proof.
  destruct (delete (E:=Posix.posix) (Posix.file "/b.md") Scenario.wsB)
    as [[v ws']|e] eqn:Hd; [|vm_compute in Hd; discriminate Hd].
  destruct (delete_removes (E:=Posix.posix) _ _ _ _ Hd)
    as (_ & Hex & _ & Hv & He).
  exists ws'. split; [|split].
  - rewrite Hv. reflexivity.
  - exact Hex.
  - rewrite He. reflexivity.
Defined.

Lemma delete_completes_iff_witness :
  exists ws',
    delete (E:=Posix.posix) (Posix.file "/docs/b.md") Scenario.wsB
    = Ok (ReturnedNull, ws').
Proof.
  destruct (proj2 (proj1 (delete_completes_iff (E:=Posix.posix) Scenario.wsB
                            (Posix.file "/docs/b.md") eq_refl)))
    as (v & ws' & Hd).
  - discriminate.
  - exists ws'. rewrite Hd. f_equal. f_equal.
    destruct (delete_effect (E:=Posix.posix) _ _ _ _ Hd) as (_ & _ & _ & Hv & _).
    exact Hv.
Defined.

Section IndexRoundTrip.
Context {E : Externals}.

(** [set] of a note with no listener registered, in full: it completes
    unless the list of the basename is read from the prototype. *)
Lemma set_note_unmonitored n ws :
  monitors ws = 0 ->
  (forall m, JsObject.read (uriToResourceName (note_uri n)) (resourcesByName ws)
             <> JsObject.Inherited m) ->
  exists ws',
    set (RNote n) ws = Ok (ReturnedWorkspace, ws')
    /\ resources ws'
       = JsObject.put (uriToResourceId (note_uri n)) (RNote n) (resources ws)
    /\ (forall k,
          JsObject.get k (resourcesByName ws')
          = if String.eqb k (uriToResourceName (note_uri n))
            then Some (or_empty (JsObject.get (uriToResourceName (note_uri n))
                                   (resourcesByName ws))
                       ++ [uriToResourceId (note_uri n)])
            else JsObject.get k (resourcesByName ws))
    /\ placeholders ws' = placeholders ws /\ links ws' = links ws
    /\ backlinks ws' = backlinks ws /\ monitors ws' = 0.
Proof.
  intros Hm Hown. rewrite set_note_steps. cbv zeta.
  destruct (push_at _ _ _) as [byName|] eqn:Hp.
  - apply push_at_Some in Hp. simpl in Hp. subst byName.
    rewrite fire_unmonitored by (simpl; exact Hm).
    eexists. split; [reflexivity|]. simpl.
    split; [reflexivity|]. split; [|tauto].
    intros k. rewrite JsObjectFacts.get_put.
    now destruct (String.eqb k (uriToResourceName (note_uri n))).
  - exfalso. apply push_at_None in Hp. simpl in Hp. destruct Hp as [Hg Hpr].
    destruct (JsObject.prototype (uriToResourceName (note_uri n))) as [m|] eqn:Hm';
      [|now apply Hpr].
    apply (Hown m). apply JsObjectFacts.read_Inherited. now split.
Qed.

Lemma delete_unmonitored uri ws v ws' :
  monitors ws = 0 ->
  delete uri ws = Ok (v, ws') ->
  exists d ws1,
    delete_index uri ws = Ok (d, ws1)
    /\ resourcesByName ws' = resourcesByName ws1
    /\ placeholders ws' = placeholders ws /\ links ws' = links ws
    /\ backlinks ws' = backlinks ws.
Proof.
  intros Hm H. unfold delete, bind in H.
  destruct (delete_index uri ws) as [[d ws1]|e] eqn:Hdi; [|discriminate].
  exists d, ws1. split; [reflexivity|].
  assert (Hsame : placeholders ws1 = placeholders ws /\ links ws1 = links ws
                  /\ backlinks ws1 = backlinks ws /\ monitors ws1 = 0).
  { unfold delete_index in Hdi. simpl in Hdi.
    destruct (JsObject.read _ _); try discriminate.
    destruct (Nat.eqb _ 0); injection Hdi as _ <-; simpl; tauto. }
  destruct d as [r|].
  - rewrite fire_unmonitored in H by tauto. injection H as _ <-. simpl. tauto.
  - injection H as _ <-. tauto.
Qed.

Lemma filter_out_appended (id : string) (l : list string) :
  ~ In id l ->
  filter (fun resId => negb (String.eqb resId id)) (l ++ [id]) = l.
Proof.
  intros Hnot. rewrite filter_app. simpl. rewrite String.eqb_refl. simpl.
  rewrite app_nil_r. induction l as [|x l IH]; simpl; [reflexivity|].
  destruct (String.eqb_spec x id) as [->|Hne]; simpl.
  - exfalso. apply Hnot. now left.
  - f_equal. apply IH. intros H. apply Hnot. now right.
Qed.

(** With no listener registered, [set] appends the id to the list of
    its basename whether or not the id is already listed, so storing
    a note again under the same id lists the id once more; the lists
    of other names are untouched. *)
Theorem set_appends_id_to_name_list (ws ws' : FoamWorkspace) (n : Note)
    (v : Returned) :
  monitors ws = 0 ->
  set (RNote n) ws = Ok (v, ws') ->
  let id := uriToResourceId (note_uri n) in
  let name := uriToResourceName (note_uri n) in
  JsObject.get name (resourcesByName ws')
  = Some (or_empty (JsObject.get name (resourcesByName ws)) ++ [id])
  /\ count_occ string_dec (or_empty (JsObject.get name (resourcesByName ws'))) id
     = S (count_occ string_dec
            (or_empty (JsObject.get name (resourcesByName ws))) id)
  /\ (forall k, k <> name ->
        JsObject.get k (resourcesByName ws')
        = JsObject.get k (resourcesByName ws)).
Proof.
  intros Hm Hs id name.
  destruct (set_note_ok n ws v ws' Hs) as (ev & Hf & _).
  rewrite fire_unmonitored in Hf by (simpl; exact Hm).
  injection Hf as <-. simpl.
  assert (Hn : forall k,
             JsObject.get k
               (JsObject.put name
                  (or_empty (JsObject.get name (resourcesByName ws)) ++ [id])
                  (resourcesByName ws))
             = if String.eqb k name
               then Some (or_empty (JsObject.get name (resourcesByName ws))
                          ++ [id])
               else JsObject.get k (resourcesByName ws)).
  { intros k. apply JsObjectFacts.get_put. }
  split; [|split].
  - rewrite Hn. now rewrite String.eqb_refl.
  - rewrite Hn. rewrite String.eqb_refl. simpl.
    rewrite count_occ_app. simpl.
    destruct (string_dec _ _) as [_|Hne]; [apply Nat.add_1_r|exfalso; now apply Hne].
  - intros k Hk. rewrite Hn.
    destruct (String.eqb_spec k name) as [Heq|_];
      [now contradiction Hk|reflexivity].
Qed.

(** Round trip: with no listener registered, storing a note under an id
    that is neither stored nor listed, and whose basename is not the
    name of a member that every object inherits, and deleting it again
    completes, returns the note, and leaves the resources and the name
    index answering every lookup as before; the graph and the
    placeholders are untouched. *)
Theorem set_then_delete_restores (ws : FoamWorkspace) (n : Note) :
  monitors ws = 0 ->
  JsObject.get (uriToResourceId (note_uri n)) (resources ws) = None ->
  ~ In (uriToResourceId (note_uri n))
       (or_empty (JsObject.get (uriToResourceName (note_uri n))
                    (resourcesByName ws))) ->
  JsObject.get (uriToResourceName (note_uri n)) (resourcesByName ws) <> Some [] ->
  JsObject.prototype (uriToResourceName (note_uri n)) = None ->
  exists ws1 ws2,
    set (RNote n) ws = Ok (ReturnedWorkspace, ws1)
    /\ delete (note_uri n) ws1 = Ok (ReturnedResource (RNote n), ws2)
    /\ (forall k, JsObject.get k (resources ws2) = JsObject.get k (resources ws))
    /\ (forall k, JsObject.get k (resourcesByName ws2)
                  = JsObject.get k (resourcesByName ws))
    /\ placeholders ws2 = placeholders ws /\ links ws2 = links ws
    /\ backlinks ws2 = backlinks ws.
Proof.
  intros Hm Hfresh Hnot Hne Hplain.
  destruct (set_note_unmonitored n ws Hm)
    as (ws1 & Hs & Hr1 & Hn1 & Hp1 & Hl1 & Hb1 & Hm1).
  { intros m Hr. apply JsObjectFacts.read_Inherited in Hr.
    destruct Hr as [_ Hr]. congruence. }
  assert (Hname : JsObject.get (uriToResourceName (note_uri n))
                    (resourcesByName ws1) <> None).
  { rewrite Hn1, String.eqb_refl. discriminate. }
  destruct (proj2 (proj1 (delete_outcome ws1 (note_uri n) Hm1)) Hname)
    as (v & ws2 & Hd).
  destruct (delete_effect _ _ _ _ Hd) as (Hr2 & _ & _ & Hv & _).
  rewrite Hr1, JsObjectFacts.get_put_eq in Hv. subst v.
  destruct (delete_unmonitored _ _ _ _ Hm1 Hd)
    as (d & ws1' & Hdi & Hn2 & Hp2 & Hl2 & Hb2).
  destruct (delete_index_ok _ _ _ _ Hdi) as (_ & _ & _ & _ & ids & Hids & Hlook).
  rewrite Hn1, String.eqb_refl in Hids. injection Hids as <-.
  exists ws1, ws2. split; [exact Hs|]. split; [exact Hd|].
  split; [|split; [|repeat split; congruence]].
  - intros k. rewrite Hr2, Hr1, JsObjectFacts.get_del, JsObjectFacts.get_put.
    destruct (String.eqb_spec k (uriToResourceId (note_uri n))) as [->|_];
      [now rewrite Hfresh|reflexivity].
  - intros k. rewrite Hn2, Hlook, Hn1.
    destruct (String.eqb_spec k (uriToResourceName (note_uri n))) as [->|_];
      [|reflexivity].
    rewrite filter_out_appended by exact Hnot.
    destruct (JsObject.get (uriToResourceName (note_uri n)) (resourcesByName ws))
      as [[|i l]|]; simpl; try reflexivity.
    now contradiction Hne.
Qed.

(** [set] of a note raises a [TypeError] when the list of its basename
    is read from the prototype, as for [/constructor.md] in a workspace
    that holds no note of that name; with no listener registered that
    is the only way for it to fail. *)
Theorem set_inherited_name_raises (ws : FoamWorkspace) (n : Note) :
  ((exists m, JsObject.read (uriToResourceName (note_uri n))
                (resourcesByName ws) = JsObject.Inherited m) ->
   set (RNote n) ws = Raise TypeError)
  /\ (monitors ws = 0 ->
      forall e, set (RNote n) ws = Raise e ->
        e = TypeError
        /\ exists m, JsObject.read (uriToResourceName (note_uri n))
                       (resourcesByName ws) = JsObject.Inherited m).
Proof.
  split.
  - intros [m Hm]. rewrite set_note_steps. cbv zeta.
    apply JsObjectFacts.read_Inherited in Hm. destruct Hm as [Hg Hp].
    assert (Hpush : push_at (uriToResourceName (note_uri n))
                      (uriToResourceId (note_uri n)) (resourcesByName ws) = None).
    { apply push_at_None. split; [exact Hg|congruence]. }
    simpl. now rewrite Hpush.
  - intros Hmon e He.
    destruct (JsObject.read (uriToResourceName (note_uri n)) (resourcesByName ws))
      as [ids|m|] eqn:Hr.
    + destruct (set_note_unmonitored n ws Hmon) as (ws' & Hs & _).
      { intros m Hm. congruence. }
      congruence.
    + split; [|now exists m].
      apply JsObjectFacts.read_Inherited in Hr. destruct Hr as [Hg Hp].
      rewrite set_note_steps in He. cbv zeta in He. simpl in He.
      assert (Hpush : push_at (uriToResourceName (note_uri n))
                        (uriToResourceId (note_uri n)) (resourcesByName ws) = None).
      { apply push_at_None. split; [exact Hg|congruence]. }
      rewrite Hpush in He. now injection He as <-.
    + destruct (set_note_unmonitored n ws Hmon) as (ws' & Hs & _).
      { intros m Hm. congruence. }
      congruence.
Qed.

End IndexRoundTrip.

Lemma set_appends_id_to_name_list_witness :
  exists ws',
    set (E:=Posix.posix) Scenario.noteB Scenario.wsB = Ok (ReturnedWorkspace, ws')
    /\ JsObject.get "b" (resourcesByName ws') = Some ["/b.md"; "/b.md"].
Proof.
  destruct (set (E:=Posix.posix) Scenario.noteB Scenario.wsB)
    as [[v ws']|e] eqn:Hs; [|vm_compute in Hs; discriminate Hs].
  assert (Hv : v = ReturnedWorkspace).
  { vm_compute in Hs. now injection Hs as <- _. }
  subst v. exists ws'. split; [reflexivity|].
  exact (proj1 (set_appends_id_to_name_list (E:=Posix.posix) Scenario.wsB ws'
                  (mkNote (Posix.file "/b.md") [] []) ReturnedWorkspace
                  eq_refl Hs)).
Defined.

Lemma set_then_delete_restores_witness :
  exists ws1 ws2,
    set (E:=Posix.posix) Scenario.noteA Scenario.wsB = Ok (ReturnedWorkspace, ws1)
    /\ delete (E:=Posix.posix) (Posix.file "/a.md") ws1
       = Ok (ReturnedResource Scenario.noteA, ws2)
    /\ forall k, JsObject.get k (resourcesByName ws2)
                 = JsObject.get k (resourcesByName Scenario.wsB).
Proof.
  destruct (set_then_delete_restores (E:=Posix.posix) Scenario.wsB
              (mkNote (Posix.file "/a.md") [WikiLink "b" Scenario.at0] []))
    as (ws1 & ws2 & Hs & Hd & _ & Hn & _).
  - reflexivity.
  - reflexivity.
  - vm_compute. tauto.
  - discriminate.
  - reflexivity.
  - exists ws1, ws2. split; [exact Hs|]. split; [exact Hd|exact Hn].
Defined.

Lemma set_inherited_name_raises_witness :
  set (E:=Posix.posix) Scenario.noteConstructor new_workspace = Raise TypeError.
Proof.
  apply (proj1 (set_inherited_name_raises (E:=Posix.posix) new_workspace
                  (mkNote (Posix.file "/constructor.md") [] []))).
  eexists. reflexivity.
Defined.

(** ** Well-formed index and the full rebuild *)

Section WellFormed.
Context {E : Externals}.

Lemma In_put {V : Type} (o : JsObject.t V) k0 v k r :
  In (k, r) (JsObject.put k0 v o) -> (k = k0 /\ r = v) \/ In (k, r) o.
Proof.
  induction o as [|[k' v'] o IH]; simpl.
  - intros [[= <- <-]|[]]. now left.
  - destruct (String.eqb_spec k0 k') as [->|Hne]; simpl.
    + intros [[= <- <-]|H]; [now left|right; now right].
    + intros [H|H]; [right; now left|].
      destruct (IH H) as [H'|H']; [now left|right; now right].
Qed.

Lemma In_del {V : Type} (o : JsObject.t V) k0 k r :
  In (k, r) (JsObject.del k0 o) -> In (k, r) o.
Proof.
  induction o as [|[k' v'] o IH]; simpl; [tauto|].
  destruct (String.eqb k0 k'); simpl.
  - intros H. right. now apply IH.
  - intros [H|H]; [now left|right; now apply IH].
Qed.

Lemma keys_put_in {V : Type} (o : JsObject.t V) k0 v k :
  In k (JsObject.keys (JsObject.put k0 v o)) -> k = k0 \/ In k (JsObject.keys o).
Proof.
  unfold JsObject.keys. intros H. apply in_map_iff in H.
  destruct H as ([k1 r] & <- & Hin). simpl.
  destruct (In_put o k0 v k1 r Hin) as [[-> _]|H]; [now left|right].
  apply in_map_iff. now exists (k1, r).
Qed.

Lemma NoDup_keys_put {V : Type} (o : JsObject.t V) k0 v :
  NoDup (JsObject.keys o) -> NoDup (JsObject.keys (JsObject.put k0 v o)).
Proof.
  induction o as [|[k' v'] o IH]; simpl; intros Hnd.
  - constructor; [intros []|constructor].
  - inversion Hnd as [|x xs Hx Hnd']; subst.
    destruct (String.eqb_spec k0 k') as [->|Hne]; simpl.
    + now constructor.
    + constructor; [|now apply IH].
      intros Hin. apply keys_put_in in Hin. destruct Hin as [->|Hin]; auto.
Qed.

Lemma NoDup_keys_del {V : Type} (o : JsObject.t V) k0 :
  NoDup (JsObject.keys o) -> NoDup (JsObject.keys (JsObject.del k0 o)).
Proof.
  induction o as [|[k' v'] o IH]; simpl; intros Hnd; [constructor|].
  inversion Hnd as [|x xs Hx Hnd']; subst.
  destruct (String.eqb k0 k'); simpl; [now apply IH|].
  constructor; [|now apply IH].
  intros Hin. apply Hx. unfold JsObject.keys in *. apply in_map_iff in Hin.
  destruct Hin as ([k1 r] & <- & Hin). apply In_del in Hin.
  apply in_map_iff. now exists (k1, r).
Qed.

Lemma index_wf_resources ws ws' :
  resources ws' = resources ws -> index_wf ws -> index_wf ws'.
Proof. unfold index_wf. now intros ->. Qed.

Lemma index_wf_set r ws v ws' :
  set r ws = Ok (v, ws') -> index_wf ws -> index_wf ws'.
Proof.
  destruct r as [n|u]; intros Hs [Hnd Hk].
  - pose proof (set_note_resources n ws v ws' Hs) as Hr.
    unfold index_wf. rewrite Hr. split; [now apply NoDup_keys_put|].
    intros k r Hin. apply In_put in Hin.
    destruct Hin as [[-> ->]|Hin]; [reflexivity|now apply Hk].
  - injection Hs as _ <-. now split.
Qed.

Lemma index_wf_delete uri ws v ws' :
  delete uri ws = Ok (v, ws') -> index_wf ws -> index_wf ws'.
Proof.
  intros Hd [Hnd Hk]. destruct (delete_effect _ _ _ _ Hd) as (Hr & _).
  unfold index_wf. rewrite Hr. split; [now apply NoDup_keys_del|].
  intros k r Hin. apply In_del in Hin. now apply Hk.
Qed.

Lemma index_wf_apply_all ops : forall ws ws',
  run (apply_all ops) ws = Ok ws' -> index_wf ws -> index_wf ws'.
Proof.
  unfold run, apply_all.
  induction ops as [|op ops IH]; intros ws ws' H Hwf; simpl in H.
  - injection H as <-. exact Hwf.
  - unfold bind in H at 1. unfold bind in H at 1.
    destruct (apply op ws) as [[v ws1]|e] eqn:Hop; [|discriminate].
    apply (IH ws1 ws'); [exact H|].
    destruct op as [r|u]; simpl in Hop.
    + eapply index_wf_set; eauto.
    + eapply index_wf_delete; eauto.
Qed.

Lemma index_wf_distinct_paths ws : index_wf ws -> distinct_paths ws.
Proof.
  intros [Hnd Hk]. unfold distinct_paths.
  apply (NoDup_map_inv pathToResourceId).
  assert (Heq : map pathToResourceId
                  (map (fun r => path (resource_uri r))
                     (JsObject.values (resources ws)))
                = JsObject.keys (resources ws)).
  { unfold JsObject.values, JsObject.keys. rewrite !map_map.
    apply map_ext_in. intros [k r] Hin. simpl.
    symmetry. apply (Hk k r Hin). }
  now rewrite Heq.
Qed.

(** A full rebuild that completes has kept the resources and fired no
    event; it has registered one more set of listeners exactly when
    asked to keep monitoring. *)
Theorem resolveLinks_keeps_index (ws ws' : FoamWorkspace)
    (keepMonitoring : bool) :
  resolveLinks ws keepMonitoring = Ok ws' ->
  resources ws' = resources ws
  /\ emitted ws' = emitted ws
  /\ monitors ws'
     = (if keepMonitoring then S (monitors ws) else monitors ws)
  /\ list_ ws'
     = JsObject.values (resources ws) ++ JsObject.values (placeholders ws').
Proof.
  intros H. apply resolveLinks_ok in H. destruct H as (ws1 & H & ->).
  apply (keeps_reduceM _ _ resolveResource_keeps) in H.
  destruct H as (Hr & He & Hm). simpl in Hr, He, Hm.
  destruct keepMonitoring; unfold list_; simpl; rewrite Hr, He, Hm; auto.
Qed.

(** Every workspace reached by [set] and [delete] from a well-formed
    index has a well-formed index again, and a full rebuild over it
    that completes yields a symmetric graph without empty lists. *)
Theorem rebuild_of_reachable_is_symmetric (ops : list Operation)
    (ws ws' ws'' : FoamWorkspace) (keepMonitoring : bool) :
  index_wf ws ->
  run (apply_all ops) ws = Ok ws' ->
  index_wf ws'
  /\ (resolveLinks ws' keepMonitoring = Ok ws'' ->
      symmetric ws''
      /\ no_empty_entry (links ws'')
      /\ no_empty_entry (backlinks ws'')).
Proof.
  intros Hwf Hrun.
  pose proof (index_wf_apply_all ops ws ws' Hrun Hwf) as Hwf'.
  split; [exact Hwf'|]. intros Hreb.
  eapply full_rebuild_symmetric; [exact Hreb|].
  now apply index_wf_distinct_paths.
Qed.

End WellFormed.

Lemma resolveLinks_keeps_index_witness :
  resources Scenario.wsRebuilt = resources Scenario.wsPromoted
  /\ monitors Scenario.wsRebuilt = monitors Scenario.wsPromoted.
Proof.
  destruct (resolveLinks_keeps_index (E:=Posix.posix) Scenario.wsPromoted
              Scenario.wsRebuilt false eq_refl) as (Hr & _ & Hm & _).
  split; [exact Hr|exact Hm].
Defined.

Lemma rebuild_of_reachable_is_symmetric_witness :
  index_wf (E:=Posix.posix) Scenario.monitored
  /\ symmetric Scenario.wsRebuilt.
Proof.
  assert (Hwf : index_wf (E:=Posix.posix) Scenario.monitored).
  { split; [constructor|]. intros k r []. }
  split; [exact Hwf|].
  apply (proj2 (rebuild_of_reachable_is_symmetric (E:=Posix.posix)
                  [OpSet Scenario.noteA; OpSet Scenario.noteB]
                  Scenario.monitored Scenario.wsPromoted Scenario.wsRebuilt
                  false Hwf eq_refl)).
  reflexivity.
Defined.

(** ** The resolver *)

Section ResolverFacts.
Context {E : Externals}.

Lemma find_result_origin (ws : FoamWorkspace) (ref : Reference)
    (origin : option URI) :
  (forall r,
     fst (find ws ref origin) = Ok (Some (FoundResource r)) ->
     In r (list_ ws)
     \/ (exists u, ref = RefUri u /\ isPlaceholder u = true
                   /\ r = RPlaceholder u
                   /\ JsObject.in_ (path u) (placeholders ws) = true))
  /\ (forall m,
        fst (find ws ref origin) = Ok (Some (FoundMember m)) ->
        exists s k, ref = RefStr s /\ JsObject.prototype k = Some m).
Proof.
  assert (Hres : forall k r, JsObject.get k (resources ws) = Some r ->
                   In r (list_ ws)).
  { intros k r H. unfold list_. apply in_or_app. left.
    eapply JsObjectFacts.get_Some_In; eauto. }
  assert (Hrd : forall k r,
             found (JsObject.read k (resources ws)) = Some (FoundResource r) ->
             In r (list_ ws)).
  { intros k r H. unfold JsObject.read in H.
    destruct (JsObject.get k (resources ws)) as [r0|] eqn:Hg.
    - injection H as <-. eauto.
    - destruct (JsObject.prototype k); discriminate. }
  assert (Hph : forall k r,
             found (JsObject.read k (placeholders ws)) = Some (FoundResource r) ->
             In r (list_ ws)).
  { intros k r H. unfold JsObject.read in H.
    destruct (JsObject.get k (placeholders ws)) as [r0|] eqn:Hg.
    - injection H as <-. unfold list_. apply in_or_app. right.
      eapply JsObjectFacts.get_Some_In; eauto.
    - destruct (JsObject.prototype k); discriminate. }
  assert (Hmem : forall V (o : JsObject.t V) (f : V -> Found) k m,
             (forall v, f v <> FoundMember m) ->
             match JsObject.read k o with
             | JsObject.Own v => Some (f v)
             | JsObject.Inherited m0 => Some (FoundMember m0)
             | JsObject.Undefined => None
             end = Some (FoundMember m) ->
             JsObject.prototype k = Some m).
  { intros V o f k m Hf H. unfold JsObject.read in H.
    destruct (JsObject.get k o) as [v|].
    - injection H as H. now apply Hf in H.
    - destruct (JsObject.prototype k) as [m0|]; [|discriminate].
      now injection H as ->. }
  assert (Hfm : forall (o : JsObject.t Resource) k m,
             found (JsObject.read k o) = Some (FoundMember m) ->
             JsObject.prototype k = Some m).
  { intros o k m H. apply (Hmem _ o FoundResource k m); [discriminate|].
    unfold found in H. now destruct (JsObject.read k o). }
  unfold find. destruct ref as [u|s].
  - simpl. split.
    + intros r. unfold find_uri, isPlaceholder.
      destruct (String.eqb (scheme u) "placeholder") eqn:Hs; simpl.
      * destruct (JsObject.in_ (path u) (placeholders ws)) eqn:Hh;
          [|discriminate].
        intros [= <-]. right. exists u. auto.
      * unfold exists_.
        destruct (JsObject.get (uriToResourceId u) (resources ws)) eqn:Hg;
          simpl; [|discriminate].
        intros [= <-]. left. eauto.
    + intros m H. destruct (find_uri ws u); discriminate.
  - destruct (getReferenceType (RefStr s)); simpl.
    + split; discriminate.
    + destruct (JsObject.get (uriToResourceId (URI_file s)) (resources ws)) eqn:Hg.
      * split; [intros r0 [= <-]; left; eauto|discriminate].
      * split; [intros r0 [= H]; left; eauto|].
        intros m [= H]. exists s. eauto.
    + destruct origin as [o|]; simpl; [|split; discriminate].
      destruct (JsObject.get (uriToResourceId (computeRelativeURI o s))
                  (resources ws)) eqn:Hg.
      * split; [intros r0 [= <-]; left; eauto|discriminate].
      * split; [intros r0 [= H]; left; eauto|].
        intros m [= H]. exists s. eauto.
    + destruct (JsObject.read (pathToResourceName s) (resourcesByName ws))
        as [[|p1 [|p2 rest]]|[[|[|k]]|]|]; simpl;
        try solve [split; discriminate];
        try solve [split; [intros r0 [= H]; left; eauto
                          |intros m [= H]; exists s; eauto]].
      destruct (sort_insert localeCompare p1 _) as [|m ms];
        [split; discriminate|].
      split; [intros r0 [= H]; left; eauto|intros m0 [= H]; exists s; eauto].
Qed.

(** [find] never invents a resource: a resource it returns is listed,
    or is the placeholder synthesized for a placeholder uri whose path
    is a key of the placeholder map.  What else it can return, for a
    string reference only, is a member of [Object.prototype]. *)
Theorem find_returns_stored (ws : FoamWorkspace) (ref : Reference)
    (origin : option URI) :
  (forall r,
     fst (find ws ref origin) = Ok (Some (FoundResource r)) ->
     In r (list_ ws)
     \/ (exists u, ref = RefUri u /\ isPlaceholder u = true
                   /\ r = RPlaceholder u
                   /\ JsObject.in_ (path u) (placeholders ws) = true))
  /\ (forall m,
        fst (find ws ref origin) = Ok (Some (FoundMember m)) ->
        exists s k, ref = RefStr s /\ JsObject.prototype k = Some m).
Proof. exact (find_result_origin ws ref origin). Qed.


(** One resolver step on the outgoing list of the note. *)
Lemma resolve_step_outgoing n l ws u ws' :
  bind (resolveLink n l) (fun t => connect (note_uri n) t l) ws = Ok (u, ws') ->
  exists t,
    JsObject.get (path (note_uri n)) (links ws')
    = Some (outgoing ws (note_uri n) ++ [mkConnection (note_uri n) t l])
    /\ (forall k, k <> path (note_uri n) ->
          JsObject.get k (links ws') = JsObject.get k (links ws))
    /\ (forall k c, In c (or_empty (JsObject.get k (backlinks ws))) ->
          In c (or_empty (JsObject.get k (backlinks ws')))).
Proof.
  intros H. apply bind_ok in H. destruct H as (t & ws1 & Hres & Hc).
  rewrite (connect_ok _ _ _ _ _ _ Hc).
  destruct (resolveLink_effect _ _ _ _ _ Hres) as (Hl & Hb & _).
  exists t. unfold outgoing, connected. simpl. rewrite Hl, Hb.
  rewrite JsObjectFacts.get_put_eq. simpl. split; [reflexivity|]. split.
  - intros k Hk. now apply JsObjectFacts.get_put_ne.
  - intros k c Hin. rewrite JsObjectFacts.get_put.
    destruct (String.eqb_spec k (path t)) as [->|_]; [|exact Hin].
    simpl. apply in_or_app. now left.
Qed.

(** A [resolveResource] that completes has rebuilt the outgoing list of
    the note from scratch: it holds one connection per reference of the
    note, in order, each from the note's uri, and [getLinks] returns it
    when the note has a reference.  The outgoing lists of other paths
    are untouched, and no incoming connection has been removed. *)
Theorem resolveResource_rebuilds_outgoing (ws ws' : FoamWorkspace) (n : Note) :
  resolveResource (RNote n) ws = Ok (tt, ws') ->
  map link (outgoing ws' (note_uri n)) = note_links n
  /\ Forall (fun c => source c = note_uri n) (outgoing ws' (note_uri n))
  /\ (note_links n <> [] ->
      getLinks ws' (note_uri n) = ConnectionList (outgoing ws' (note_uri n)))
  /\ (forall k, k <> path (note_uri n) ->
        JsObject.get k (links ws') = JsObject.get k (links ws))
  /\ (forall k c, In c (or_empty (JsObject.get k (backlinks ws))) ->
        In c (or_empty (JsObject.get k (backlinks ws')))).
Proof.
  simpl. intros H. apply bind_ok in H. destruct H as ([] & ws0 & H0 & H).
  injection H0 as <-.
  set (ws0 := set_links ws _) in H.
  assert (H0 : JsObject.get (path (note_uri n)) (links ws0) = None
               /\ (forall k, k <> path (note_uri n) ->
                     JsObject.get k (links ws0) = JsObject.get k (links ws))
               /\ (forall k c, In c (or_empty (JsObject.get k (backlinks ws))) ->
                     In c (or_empty (JsObject.get k (backlinks ws0))))).
  { unfold ws0. simpl. rewrite JsObjectFacts.get_del_eq.
    split; [reflexivity|]. split; [|auto].
    intros k Hk. now apply JsObjectFacts.get_del_ne. }
  clearbody ws0.
  assert (Hgen : forall ls w acc w',
             reduceM (fun l => bind (resolveLink n l)
                                 (fun t => connect (note_uri n) t l)) ls w
             = Ok (tt, w') ->
             outgoing w (note_uri n) = acc ->
             (ls = [] \/ acc <> [] ->
              JsObject.get (path (note_uri n)) (links w)
              = match acc with [] => None | _ => Some acc end) ->
             Forall (fun c => source c = note_uri n) acc ->
             (forall k, k <> path (note_uri n) ->
                JsObject.get k (links w) = JsObject.get k (links ws)) ->
             (forall k c, In c (or_empty (JsObject.get k (backlinks ws))) ->
                In c (or_empty (JsObject.get k (backlinks w)))) ->
             map link (outgoing w' (note_uri n)) = map link acc ++ ls
             /\ Forall (fun c => source c = note_uri n) (outgoing w' (note_uri n))
             /\ (map link acc ++ ls <> [] ->
                 JsObject.get (path (note_uri n)) (links w')
                 = Some (outgoing w' (note_uri n)))
             /\ (forall k, k <> path (note_uri n) ->
                   JsObject.get k (links w') = JsObject.get k (links ws))
             /\ (forall k c, In c (or_empty (JsObject.get k (backlinks ws))) ->
                   In c (or_empty (JsObject.get k (backlinks w'))))).
  { induction ls as [|l ls IH]; intros w acc w' Hred Hacc Hown Hsrc Hk Hb;
      simpl in Hred.
    - injection Hred as <-. rewrite Hacc, app_nil_r.
      split; [reflexivity|]. split; [exact Hsrc|]. split; [|auto].
      intros Hne. rewrite Hown by now left.
      destruct acc; [now contradiction Hne|reflexivity].
    - apply bind_ok in Hred. destruct Hred as ([] & w1 & Hstep & Hred).
      destruct (resolve_step_outgoing _ _ _ _ _ Hstep) as (t & Hs1 & Hs2 & Hs3).
      specialize (IH w1 (acc ++ [mkConnection (note_uri n) t l]) w' Hred).
      rewrite map_app in IH. simpl in IH.
      rewrite <- app_assoc in IH. simpl in IH. apply IH.
      + unfold outgoing at 1. rewrite Hs1, Hacc. reflexivity.
      + intros _. rewrite Hs1, Hacc. now destruct acc.
      + apply Forall_app. split; [exact Hsrc|]. now constructor.
      + intros k Hne. rewrite Hs2 by exact Hne. now apply Hk.
      + intros k c Hin. apply Hs3. now apply Hb. }
  destruct H0 as (Ha & Hb & Hc).
  destruct (Hgen (note_links n) ws0 [] ws' H) as (G1 & G2 & G3 & G4 & G5).
  - unfold outgoing. now rewrite Ha.
  - intros _. exact Ha.
  - constructor.
  - exact Hb.
  - exact Hc.
  - simpl in G1, G3. split; [exact G1|]. split; [exact G2|].
    split; [|split; [exact G4|exact G5]].
    intros Hne. apply getLinks_own. now apply G3.
Qed.

End ResolverFacts.

Lemma find_returns_stored_witness :
  In Scenario.noteB (list_ Scenario.wsPromoted).
Proof.
  destruct (proj1 (find_returns_stored (E:=Posix.posix) Scenario.wsPromoted
                     (RefStr "b") None) Scenario.noteB eq_refl)
    as [Hin|(u & Hu & _)]; [exact Hin|discriminate Hu].
Defined.


Lemma resolveResource_rebuilds_outgoing_witness :
  exists ws',
    resolveResource (E:=Posix.posix) Scenario.noteA2 Scenario.wsPromoted
    = Ok (tt, ws')
    /\ map link (outgoing ws' (Posix.file "/a.md"))
       = [WikiLink "b" Scenario.at0; WikiLink "c" Scenario.at1].
Proof.
  destruct (resolveResource (E:=Posix.posix) Scenario.noteA2 Scenario.wsPromoted)
    as [[[] ws']|e] eqn:Hr; [|vm_compute in Hr; discriminate Hr].
  exists ws'. split; [reflexivity|].
  exact (proj1 (resolveResource_rebuilds_outgoing (E:=Posix.posix)
                  Scenario.wsPromoted ws'
                  (mkNote (Posix.file "/a.md")
                     [WikiLink "b" Scenario.at0; WikiLink "c" Scenario.at1] [])
                  Hr)).
Defined.

(** ** What the listeners can raise *)

Section ListenerFacts.
Context {E : Externals}.

Lemma raises_only_ret {A : Type} P (a : A) : raises_only P (ret a).
Proof. intros ws e H. discriminate. Qed.

Lemma raises_only_throw {A : Type} (P : Error -> Prop) e :
  P e -> raises_only P (@throw A e).
Proof. intros HP ws e' [= <-]. exact HP. Qed.

Lemma raises_only_read {A : Type} P (f : FoamWorkspace -> A) :
  raises_only P (fun ws => Ok (f ws, ws)).
Proof. intros ws e H. discriminate. Qed.

Lemma raises_only_modify P f : raises_only P (modify f).
Proof. intros ws e H. discriminate. Qed.

Lemma raises_only_bind {A B : Type} P (m : M A) (k : A -> M B) :
  raises_only P m -> (forall a, raises_only P (k a)) ->
  raises_only P (bind m k).
Proof.
  intros Hm Hk ws e H. apply bind_raise in H.
  destruct H as [H|(a & ws1 & _ & H)].
  - eapply Hm; eauto.
  - eapply Hk; eauto.
Qed.

Lemma raises_only_reduceM {A : Type} P (f : A -> M unit) xs :
  (forall x, raises_only P (f x)) -> raises_only P (reduceM f xs).
Proof.
  intros Hf. induction xs as [|x xs IH]; simpl.
  - apply raises_only_ret.
  - apply raises_only_bind; auto.
Qed.

Lemma raises_only_reduce_read (P : Error -> Prop) v f :
  P TypeError -> (forall c, raises_only P (f c)) ->
  raises_only P (reduce_read v f).
Proof.
  intros HP Hf. unfold reduce_read.
  destruct (array_or_empty v);
    [now apply raises_only_reduceM|now apply raises_only_throw].
Qed.

Lemma raises_only_weaken {A : Type} (P Q : Error -> Prop) (m : M A) :
  (forall e, P e -> Q e) -> raises_only P m -> raises_only Q m.
Proof. intros HPQ Hm ws e H. apply HPQ. eapply Hm; eauto. Qed.

Lemma get_raises_not_found uri : raises_only is_not_found (get uri).
Proof.
  intros ws e H. unfold get in H.
  destruct (find_uri ws uri); [discriminate|].
  injection H as <-. now exists (path uri).
Qed.

Lemma disconnect_raises_type_error s t sel :
  raises_only (fun e => e = TypeError) (disconnect s t sel).
Proof.
  intros ws e H. exact (proj2 (proj2 (disconnect_outcome s t sel ws)) e H).
Qed.

Lemma connect_raises_type_error s t l :
  raises_only (fun e => e = TypeError) (connect s t l).
Proof.
  intros ws e H.
  destruct (connect_outcome s t l ws) as [(Hc & _)|(Hc & _)]; congruence.
Qed.

Lemma resolveLink_raises_type_error n l :
  raises_only (fun e => e = TypeError) (resolveLink n l).
Proof. intros ws e H. eapply resolveLink_raise; eauto. Qed.

Lemma resolveResource_raises_type_error r :
  raises_only (fun e => e = TypeError) (resolveResource r).
Proof.
  destruct r as [n|u]; simpl; [|apply raises_only_ret].
  apply raises_only_bind; [apply raises_only_modify|]. intros _.
  apply raises_only_reduceM. intros l. apply raises_only_bind.
  - apply resolveLink_raises_type_error.
  - intros t. apply connect_raises_type_error.
Qed.

Lemma resolve_sources_raise (v : JsObject.Value (list Connection)) :
  raises_only (fun e => e = TypeError \/ is_not_found e)
    (reduce_read v
       (fun c => bind (get (source c)) (fun r => resolveResource r))).
Proof.
  apply raises_only_reduce_read; [now left|].
  intros c. apply raises_only_bind.
  - eapply raises_only_weaken; [|apply get_raises_not_found]. tauto.
  - intros r. eapply raises_only_weaken;
      [|apply resolveResource_raises_type_error]. tauto.
Qed.

(** The [Added] listener: when the basename of the new resource is not
    [in] the placeholder map it only resolves that resource.  When the
    basename is the name of an inherited member and no placeholder of
    that name is stored, it raises a [TypeError].  The errors it can
    raise are a [TypeError] and NotFound, for the source of a connection
    into the placeholder that is no longer stored. *)
Theorem added_listener_errors (r : Resource) (ws : FoamWorkspace) :
  (JsObject.in_ (uriToResourceName (resource_uri r)) (placeholders ws) = false ->
   updateLinksRelatedToAddedResource r ws = resolveResource r ws)
  /\ (JsObject.has (uriToResourceName (resource_uri r)) (placeholders ws) = false ->
      JsObject.prototype (uriToResourceName (resource_uri r)) <> None ->
      updateLinksRelatedToAddedResource r ws = Raise TypeError)
  /\ (forall e,
        updateLinksRelatedToAddedResource r ws = Raise e ->
        e = TypeError \/ is_not_found e).
Proof.
  split; [|split].
  - intros Hn. unfold updateLinksRelatedToAddedResource. rewrite Hn.
    reflexivity.
  - intros Hh Hp. unfold updateLinksRelatedToAddedResource, JsObject.in_,
      JsObject.read.
    rewrite Hh. unfold JsObject.has in Hh.
    destruct (JsObject.get _ (placeholders ws)); [discriminate|].
    destruct (JsObject.prototype _); [reflexivity|now contradiction Hp].
  - intros e H. unfold updateLinksRelatedToAddedResource in H. revert H.
    match goal with
    | |- bind ?m ?k ws = _ -> _ =>
        assert (Hr : raises_only (fun e => e = TypeError \/ is_not_found e)
                       (bind m k))
    end.
    { apply raises_only_bind.
      - destruct (JsObject.in_ _ _); [|apply raises_only_ret].
        destruct (JsObject.read _ _) as [p| |];
          try (apply raises_only_throw; now left).
        apply raises_only_bind; [apply raises_only_modify|]. intros _.
        apply raises_only_bind;
          [apply (raises_only_read _ (fun w => JsObject.read _ (backlinks w)))|].
        intros cs. apply resolve_sources_raise.
      - intros _. eapply raises_only_weaken;
          [|apply resolveResource_raises_type_error]. tauto. }
    apply Hr.
Qed.

(** The second half of the [Deleted] listener does nothing when the
    deleted path has no incoming list. *)
Lemma deleted_listener_no_incoming r ws :
  JsObject.read (path (resource_uri r)) (backlinks ws) = JsObject.Undefined ->
  exists ws',
    bind (fun w => Ok (JsObject.read (path (resource_uri r)) (backlinks w), w))
      (fun cs =>
         bind (modify (fun w =>
                         set_backlinks w
                           (JsObject.del (path (resource_uri r)) (backlinks w))))
           (fun _ =>
              reduce_read cs
                (fun c => bind (get (source c)) (fun r0 => resolveResource r0))))
      ws = Ok (tt, ws').
Proof.
  intros H. unfold bind, modify. rewrite H.
  unfold reduce_read. simpl. unfold ret. eauto.
Qed.

(** The [Deleted] listener raises a [TypeError] whenever the deleted
    resource still has an outgoing connection, and whenever the list of
    its path is read from the prototype.  The errors it can raise are a
    [TypeError] and NotFound, for the source of an incoming connection
    that is no longer stored.  When the deleted path has no incoming
    list, it raises exactly when the resource still has an outgoing
    connection. *)
Theorem deleted_listener_errors (r : Resource) (ws : FoamWorkspace) :
  ((exists c cs,
      JsObject.get (path (resource_uri r)) (links ws) = Some (c :: cs)) ->
   updateLinksRelatedToDeletedResource r ws = Raise TypeError)
  /\ ((exists m, JsObject.read (path (resource_uri r)) (links ws)
                 = JsObject.Inherited m) ->
      updateLinksRelatedToDeletedResource r ws = Raise TypeError)
  /\ (forall e,
        updateLinksRelatedToDeletedResource r ws = Raise e ->
        e = TypeError \/ is_not_found e)
  /\ (JsObject.read (path (resource_uri r)) (backlinks ws) = JsObject.Undefined ->
      ((exists e, updateLinksRelatedToDeletedResource r ws = Raise e)
       <-> exists c cs,
             JsObject.get (path (resource_uri r)) (links ws) = Some (c :: cs))).
Proof.
  split; [|split; [|split]].
  - intros (c & cs & Hg). eapply deleted_listener_raises; eauto.
  - intros [m Hm]. unfold updateLinksRelatedToDeletedResource.
    unfold bind at 1. rewrite Hm. reflexivity.
  - intros e. unfold updateLinksRelatedToDeletedResource.
    match goal with
    | |- ?m ws = _ -> _ =>
        assert (Hr : raises_only (fun e => e = TypeError \/ is_not_found e) m)
    end.
    { apply raises_only_bind;
        [apply (raises_only_read _ (fun w => JsObject.read _ (links w)))|].
      intros cs. apply raises_only_bind; [apply raises_only_modify|].
      intros _. apply raises_only_bind.
      { apply raises_only_reduce_read; [now left|]. intros c.
        eapply raises_only_weaken; [|apply disconnect_raises_type_error].
        tauto. }
      intros _. apply raises_only_bind;
        [apply (raises_only_read _ (fun w => JsObject.read _ (backlinks w)))|].
      intros cs'. apply raises_only_bind; [apply raises_only_modify|].
      intros _. apply resolve_sources_raise. }
    apply Hr.
  - intros Hb. split.
    + intros [e He].
      destruct (JsObject.get (path (resource_uri r)) (links ws))
        as [[|c cs]|] eqn:Hg; [| now exists c, cs |]; exfalso.
      * unfold updateLinksRelatedToDeletedResource in He.
        unfold bind at 1 in He.
        rewrite (proj2 (JsObjectFacts.read_Own _ _ _) Hg) in He.
        unfold bind at 1, modify at 1 in He. unfold bind at 1 in He.
        simpl in He.
        match type of He with
        | bind _ _ ?w = _ =>
            destruct (deleted_listener_no_incoming r w Hb) as (ws' & Hok)
        end.
        rewrite Hok in He. discriminate He.
      * pose proof (proj2 (proj1 (JsObjectFacts.read_Undefined _ _) Hb)) as Hp.
        unfold updateLinksRelatedToDeletedResource in He.
        unfold bind at 1 in He.
        rewrite (JsObjectFacts.read_plain _ _ Hp), Hg in He.
        unfold bind at 1, modify at 1 in He. unfold bind at 1 in He.
        simpl in He.
        match type of He with
        | bind _ _ ?w = _ =>
            destruct (deleted_listener_no_incoming r w Hb) as (ws' & Hok)
        end.
        rewrite Hok in He. discriminate He.
    + intros (c & cs & Hg). exists TypeError.
      eapply deleted_listener_raises; eauto.
Qed.

End ListenerFacts.

(** The [Updated] listener raises UnexpectedState exactly when the two
    resources have different paths, whatever the workspace; with equal
    paths it does nothing unless both are notes, and the only error it
    can then raise is a [TypeError]. *)
Theorem updated_listener_errors {E : Externals} (o n : Resource)
    (ws : FoamWorkspace) :
  (updateLinksForResource o n ws = Raise UnexpectedState
   <-> path (resource_uri o) <> path (resource_uri n))
  /\ (forall e, updateLinksForResource o n ws = Raise e ->
        e = UnexpectedState \/ e = TypeError)
  /\ (path (resource_uri o) = path (resource_uri n) ->
      (exists u, o = RPlaceholder u) \/ (exists u, n = RPlaceholder u) ->
      updateLinksForResource o n ws = Ok (tt, ws)).
Proof.
  destruct (String.eqb_spec (path (resource_uri o)) (path (resource_uri n)))
    as [Heq|Hne].
  - assert (Hte : raises_only (fun e => e = TypeError)
                    (updateLinksForResource o n)).
    { unfold updateLinksForResource.
      rewrite (proj2 (String.eqb_eq _ _) Heq). simpl.
      destruct o as [o0|u]; [|apply raises_only_ret].
      destruct n as [n0|u]; [|apply raises_only_ret].
      apply raises_only_bind.
      - apply raises_only_reduceM. intros l. apply raises_only_bind;
          [apply resolveLink_raises_type_error|].
        intros t. apply disconnect_raises_type_error.
      - intros _. apply raises_only_reduceM. intros l. apply raises_only_bind;
          [apply resolveLink_raises_type_error|].
        intros t. apply connect_raises_type_error. }
    split; [|split].
    + split; [intros H; apply Hte in H; discriminate H|intros H; now contradiction H].
    + intros e H. right. now apply (Hte ws).
    + intros _ Hph. unfold updateLinksForResource.
      rewrite (proj2 (String.eqb_eq _ _) Heq). simpl.
      destruct Hph as [[u ->]|[u ->]]; [reflexivity|]. now destruct o.
  - assert (Hus : updateLinksForResource o n ws = Raise UnexpectedState).
    { unfold updateLinksForResource.
      now rewrite (proj2 (String.eqb_neq _ _) Hne). }
    rewrite Hus. split; [|split].
    + split; [intros _; exact Hne|reflexivity].
    + intros e [= <-]. now left.
    + intros H. now contradiction Hne.
Qed.

Lemma added_listener_errors_witness :
  updateLinksRelatedToAddedResource (E:=Posix.posix) Scenario.noteA
    Scenario.monitored
  = resolveResource (E:=Posix.posix) Scenario.noteA Scenario.monitored
  /\ updateLinksRelatedToAddedResource (E:=Posix.posix)
       Scenario.noteConstructor Scenario.monitored = Raise TypeError.
Proof.
  split.
  - apply (proj1 (added_listener_errors (E:=Posix.posix) Scenario.noteA
                    Scenario.monitored)).
    reflexivity.
  - apply (proj1 (proj2 (added_listener_errors (E:=Posix.posix)
                           Scenario.noteConstructor Scenario.monitored))).
    + reflexivity.
    + discriminate.
Defined.

Lemma deleted_listener_errors_witness :
  updateLinksRelatedToDeletedResource (E:=Posix.posix) Scenario.noteA
    Scenario.wsPromoted = Raise TypeError.
Proof.
  apply (proj1 (deleted_listener_errors (E:=Posix.posix) Scenario.noteA
                  Scenario.wsPromoted)).
  eexists. eexists. vm_compute. reflexivity.
Defined.

Lemma updated_listener_errors_witness :
  updateLinksForResource (E:=Posix.posix) Scenario.noteA Scenario.noteB
    Scenario.wsPromoted = Raise UnexpectedState.
Proof.
  apply (proj2 (proj1 (updated_listener_errors (E:=Posix.posix) Scenario.noteA
                         Scenario.noteB Scenario.wsPromoted))).
  discriminate.
Defined.



Lemma disconnect_completes_iff_witness :
  disconnect (Posix.file "/a.md") (placeholderUri "b") AllLinks new_workspace
  = Raise TypeError.
Proof.
  apply (proj2 (proj1 (proj2 (disconnect_completes_iff (Posix.file "/a.md")
                                (placeholderUri "b") AllLinks new_workspace)))).
  left. reflexivity.
Defined.

(** ** Names that every object inherits *)

(** The resources are keyed by normalized ids.  When [path.parse] gives
    an extension only to a path that holds a dot, as Node's does, no
    normalized id is the name of a member of [Object.prototype]:
    reading a map at a normalized id yields an own property or nothing,
    and [exists] answers [true] exactly for an own property. *)
Theorem resource_id_reads_own {E : Externals} (ws : FoamWorkspace) (uri : URI) :
  ext_has_dot ->
  JsObject.prototype (uriToResourceId uri) = None
  /\ JsObject.read (uriToResourceId uri) (resources ws)
     = match JsObject.get (uriToResourceId uri) (resources ws) with
       | Some v => JsObject.Own v
       | None => JsObject.Undefined
       end
  /\ (exists_ ws uri = true
      <-> exists r, JsObject.read (uriToResourceId uri) (resources ws)
                    = JsObject.Own r).
Proof.
  intros Hext.
  pose proof (read_at_resource_id (resources ws) uri Hext) as Hr.
  split; [|split; [exact Hr|]].
  - destruct (JsObject.prototype (uriToResourceId uri)) as [m|] eqn:Hp;
      [|reflexivity].
    unfold JsObject.read in Hr.
    destruct (JsObject.get (uriToResourceId uri) (resources ws)) eqn:Hg.
    + pose proof (read_at_resource_id (@JsObject.empty Resource) uri Hext) as H0.
      unfold JsObject.read in H0. simpl in H0. rewrite Hp in H0. discriminate H0.
    + rewrite Hp in Hr. discriminate Hr.
  - rewrite Hr. unfold exists_.
    destruct (JsObject.get (uriToResourceId uri) (resources ws)) as [r|]; split.
    + intros _. now exists r.
    + reflexivity.
    + discriminate.
    + intros [r H]. discriminate H.
Qed.

Lemma resource_id_reads_own_witness :
  JsObject.prototype
    (uriToResourceId (E:=Posix.posix) (Posix.file "/constructor")) = None.
Proof.
  exact (proj1 (resource_id_reads_own (E:=Posix.posix) new_workspace
                  (Posix.file "/constructor")
                  PosixExtFacts.parse_ext_has_dot)).
Defined.

(** The names of the members of [Object.prototype] reach the maps
    through short keys, basenames and placeholder paths.  On the empty
    workspace [find] of [toString] returns the inherited function,
    [find] of [constructor] returns nothing and [find] of [__proto__]
    raises a [TypeError]; [set] of a note at [/constructor.md] raises a
    [TypeError]; and in incremental mode so does [set] of a note that
    refers to [constructor], when its connection is recorded. *)
Theorem inherited_names_reach_the_maps :
  fst (find (E:=Posix.posix) new_workspace (RefStr "toString") None)
  = Ok (Some (FoundMember (JsObject.MemberFunction 0)))
  /\ fst (find (E:=Posix.posix) new_workspace (RefStr "constructor") None)
     = Ok None
  /\ fst (find (E:=Posix.posix) new_workspace (RefStr "__proto__") None)
     = Raise TypeError
  /\ set (E:=Posix.posix) Scenario.noteConstructor new_workspace
     = Raise TypeError
  /\ (exists ws',
        resolveLink (E:=Posix.posix)
          (mkNote (Posix.file "/a.md") [WikiLink "constructor" Scenario.at0] [])
          (WikiLink "constructor" Scenario.at0) Scenario.monitored
        = Ok (placeholderUri "constructor", ws')
        /\ connect (Posix.file "/a.md") (placeholderUri "constructor")
             (WikiLink "constructor" Scenario.at0) ws' = Raise TypeError)
  /\ set (E:=Posix.posix) Scenario.noteToConstructor Scenario.monitored
     = Raise TypeError.
Proof.
  split; [reflexivity|]. split; [reflexivity|]. split; [reflexivity|].
  split; [reflexivity|]. split; [|reflexivity].
  eexists. split; reflexivity.
Qed.
